(** * Ma Soi room server: a shallow embedding of [server.js]

    The development follows the source file top to bottom: the values that
    travel in event payloads, the room registry ([rooms], a JavaScript
    [Map]), the helpers ([generateRoomCode], [getRoom], [buildRoleSummary],
    [cleanupUser]) and the six socket handlers.  Handlers are written in
    explicit state-passing style; every [emit] is logged in order, together
    with the connections it reaches at the moment it is made. *)

From Stdlib Require Import Ascii String QArith Qround.
From stdpp Require Import base list strings pretty.

Open Scope string_scope.
Open Scope list_scope.

(** ** JavaScript values carried by event payloads

    Payloads arrive as parsed JSON.  Numbers are kept integer valued: no
    handler computes on a number taken from a payload, it only compares
    such a number with an array length. *)

#[local] Unset Elimination Schemes.

Inductive JsVal : Type :=
| JUndefined
| JNull
| JBool (b : bool)
| JNum (n : Z)
| JStr (s : string)
| JArr (items : list JsVal)
| JObj (fields : list (string * JsVal)).

#[local] Set Elimination Schemes.

#[global] Instance JsVal_inhabited : Inhabited JsVal := populate JUndefined.

(** Truthiness, as used by [||], [!] and [if]. *)
Definition truthy (v : JsVal) : bool :=
  match v with
  | JUndefined | JNull => false
  | JBool b => b
  | JNum n => negb (n =? 0)%Z
  | JStr s => negb (String.eqb s "")
  | JArr _ | JObj _ => true
  end.

(** A string is truthy unless it is empty. *)
Definition truthy_str (s : string) : bool := negb (String.eqb s "").

(** [moderatorId] is [null] or a connection identifier. *)
Definition truthy_id (m : option string) : bool :=
  match m with
  | None => false
  | Some s => truthy_str s
  end.

Definition nullish (v : JsVal) : bool :=
  match v with
  | JUndefined | JNull => true
  | _ => false
  end.

Fixpoint assoc {A : Type} (k : string) (l : list (string * A)) : option A :=
  match l with
  | [] => None
  | (k', v) :: rest => if decide (k' = k) then Some v else assoc k rest
  end.

(** Property read [v.k] for the payload keys the handlers destructure
    ([roomId], [name], [selectedRoles], [playerId]): only an object can carry
    them, every other non-nullish value yields [undefined].  An object is the
    list of its properties, each key once. *)
Definition field (v : JsVal) (k : string) : JsVal :=
  match v with
  | JObj fs => default JUndefined (assoc k fs)
  | _ => JUndefined
  end.

(** The value used as a [Map] key or compared with [===] against a string:
    only a string can be equal to a string. *)
Definition as_string (v : JsVal) : option string :=
  match v with
  | JStr s => Some s
  | _ => None
  end.

(** [v.length]; [None] is the TypeError of reading a property of
    [undefined] or [null]. *)
Definition js_length (v : JsVal) : option JsVal :=
  match v with
  | JUndefined | JNull => None
  | JStr s => Some (JNum (Z.of_nat (String.length s)))
  | JArr l => Some (JNum (Z.of_nat (length l)))
  | JObj _ => Some (field v "length")
  | JBool _ | JNum _ => Some JUndefined
  end.

(** [v === n] for an array length [n]. *)
Definition is_num (v : JsVal) (n : nat) : bool :=
  match v with
  | JNum z => (z =? Z.of_nat n)%Z
  | _ => false
  end.

Fixpoint string_chars (s : string) : list JsVal :=
  match s with
  | EmptyString => []
  | String c rest => JStr (String c EmptyString) :: string_chars rest
  end.

(** The spread [[...v]]; [None] is the TypeError of spreading a value
    that is not iterable. *)
Definition js_spread (v : JsVal) : option (list JsVal) :=
  match v with
  | JArr l => Some l
  | JStr s => Some (string_chars s)
  | _ => None
  end.

Fixpoint join_with (sep : string) (l : list string) : string :=
  match l with
  | [] => ""
  | [x] => x
  | x :: rest => x +:+ sep +:+ join_with sep rest
  end.

(** String conversion inside a template literal. *)
Fixpoint js_toString (v : JsVal) : string :=
  match v with
  | JUndefined => "undefined"
  | JNull => "null"
  | JBool true => "true"
  | JBool false => "false"
  | JNum n => pretty n
  | JStr s => s
  | JArr l =>
      join_with ","
        (map (fun x => if nullish x then "" else js_toString x) l)
  | JObj _ => "[object Object]"
  end.

(** ** Strings

    Strings are sequences of 8-bit characters; case mapping and trimming
    are the ASCII ones.  On a string of ASCII characters ([ascii_only]
    below) they are [String.prototype.toUpperCase] and
    [String.prototype.trim]; on other strings JavaScript also maps the
    letters and strips the white space of Unicode, which these functions do
    not.  The room codes of the registry are ASCII. *)

Definition upper_ascii (c : ascii) : ascii :=
  let n := nat_of_ascii c in
  if (97 <=? n)%nat && (n <=? 122)%nat then ascii_of_nat (n - 32) else c.

Fixpoint toUpperCase (s : string) : string :=
  match s with
  | EmptyString => EmptyString
  | String c rest => String (upper_ascii c) (toUpperCase rest)
  end.

Definition is_space (c : ascii) : bool :=
  let n := nat_of_ascii c in
  ((9 <=? n)%nat && (n <=? 13)%nat) || (n =? 32)%nat.

Fixpoint trimStart (s : string) : string :=
  match s with
  | EmptyString => EmptyString
  | String c rest => if is_space c then trimStart rest else s
  end.

Fixpoint trimEnd (s : string) : string :=
  match s with
  | EmptyString => EmptyString
  | String c rest =>
      match trimEnd rest with
      | EmptyString => if is_space c then EmptyString else String c EmptyString
      | rest' => String c rest'
      end
  end.

Definition trim (s : string) : string := trimEnd (trimStart s).

(** [s.charAt(k)]: the empty string when [k] is out of range. *)
Definition charAt (s : string) (k : nat) : string :=
  match String.get k s with
  | Some c => String c EmptyString
  | None => EmptyString
  end.

(** [s.substr(0, n)]. *)
Definition substr0 (s : string) (n : nat) : string := String.substring 0 n s.

Definition dquote : string := String (ascii_of_nat 34) EmptyString.

(** ** Randomness

    Every call of [Math.random()] consumes one draw, a number of the unit
    interval.  [Math.floor(Math.random() * k)] is [rand_index r k]; the
    rounding of the floating-point product never reaches [k], so the exact
    product is used. *)

Definition valid_draw (r : Q) : Prop := (0 <= r)%Q /\ (r < 1)%Q.

Definition rand_index (r : Q) (k : nat) : nat :=
  Z.to_nat (Qfloor (r * inject_Z (Z.of_nat k))).

(** ** Game state (server.js, l. 12-14) *)

Inductive Status := waiting | assigned.

Module Player.

Record t := mk { id : string; name : JsVal; role : JsVal }.

(** [player.role = v]. *)
Definition set_role (v : JsVal) (p : t) : t :=
  {| id := id p; name := name p; role := v |}.

End Player.

Module Room.

Record t := mk {
  moderatorId : option string;
  players : list Player.t;
  status : Status
}.

(** [room.moderatorId = m]. *)
Definition set_moderatorId (m : option string) (r : t) : t :=
  {| moderatorId := m; players := players r; status := status r |}.

(** [room.players = ps]. *)
Definition set_players (ps : list Player.t) (r : t) : t :=
  {| moderatorId := moderatorId r; players := ps; status := status r |}.

(** [room.status = s]. *)
Definition set_status (s : Status) (r : t) : t :=
  {| moderatorId := moderatorId r; players := players r; status := s |}.

End Room.

(** [rooms] is a [Map]: keys are unique and iteration follows insertion
    order, so it is kept as the list of its entries. *)
Definition Registry := list (string * Room.t).

Definition rooms_get (k : string) (rs : Registry) : option Room.t := assoc k rs.

Definition rooms_has (k : string) (rs : Registry) : bool :=
  bool_decide (is_Some (rooms_get k rs)).

(** [rooms.set(k, v)]; also the write-back of a room object mutated in
    place, which keeps the entry where it is. *)
Fixpoint rooms_set (k : string) (v : Room.t) (rs : Registry) : Registry :=
  match rs with
  | [] => [(k, v)]
  | (k', v') :: rest =>
      if decide (k' = k) then (k, v) :: rest else (k', v') :: rooms_set k v rest
  end.

(** ** The transport (socket.io connections and broadcast groups)

    The adapter lists the live connections with the groups each one joined
    through [socket.join]; every connection is besides reachable under its
    own identifier. *)

Definition Adapter := list (string * list string).

(** A group is joined once: joining it again changes nothing. *)
Definition add_group (g : string) (gs : list string) : list string :=
  if decide (g ∈ gs) then gs else gs ++ [g].

(** [socket.join(g)] for the connection [sid]. *)
Definition socket_join (sid g : string) (tr : Adapter) : Adapter :=
  map (fun c => if decide (c.1 = sid) then (c.1, add_group g c.2) else c) tr.

(** [targetSocket.leave(g)] for the connection [sid]. *)
Definition socket_leave (sid g : string) (tr : Adapter) : Adapter :=
  map (fun c => if decide (c.1 = sid)
                then (c.1, filter (fun g' => g' <> g) c.2) else c) tr.

(** [io.sockets.sockets.get(sid)] finds a live connection. *)
Definition sockets_has (sid : string) (tr : Adapter) : bool :=
  bool_decide (sid ∈ map fst tr).

(** The transport drops the connection [sid], and with it its
    memberships. *)
Definition sockets_remove (sid : string) (tr : Adapter) : Adapter :=
  filter (fun c => c.1 <> sid) tr.

(** The connections reached by [io.to(g)]. *)
Definition members (tr : Adapter) (g : string) : list string :=
  map fst (filter (fun c => c.1 = g \/ g ∈ c.2) tr).

(** ** Outbound messages (the [emit] calls of server.js) *)

Inductive RoleType := moderator | player.

Inductive Msg :=
| room_created (roomCode : string)
| role_assigned (type : RoleType) (roomCode : option string)
| player_list_update (players : list Player.t)
| player_count_update (count : nat)
| init_state (hasModerator : bool) (playerCount : nat)
| receive_role (role : JsVal)
| role_summary (rows : list (JsVal * JsVal))
| status_msg (text : string)
| error_msg (text : string)
| room_reset
| mod_status_update (hasModerator : bool)
| kicked.

Inductive Target :=
| ToSocket (sid : string)   (* socket.emit, targetSocket.emit *)
| ToGroup (g : string).     (* io.to(g).emit *)

Record Emission := mkEmission {
  em_to : Target;
  em_rcpts : list string;   (* the connections reached when it is emitted *)
  em_msg : Msg
}.

Definition socket_emit (sid : string) (m : Msg) : Emission :=
  {| em_to := ToSocket sid; em_rcpts := [sid]; em_msg := m |}.

Definition io_to_emit (tr : Adapter) (g : string) (m : Msg) : Emission :=
  {| em_to := ToGroup g; em_rcpts := members tr g; em_msg := m |}.

Record State := mkState { rooms : Registry; io : Adapter }.

Definition init : State := {| rooms := []; io := [] |}.

(** What a handler call amounts to. *)
Inductive Outcome :=
| Returned (st : State) (out : list Emission)
    (* ran to its end *)
| Threw (st : State) (out : list Emission)
    (* raised a TypeError; [st] and [out] are what was done before it.
       Nothing in server.js catches it: the process ends with it *)
| Starved.
    (* the draws supplied for [Math.random] ran out where the program
       goes on drawing: a too short list of draws for the shuffle; for
       [generateRoomCode], whose retries are recursive calls, a search that
       goes on until a free code comes up or the call stack is exhausted *)

(** ** Helpers (server.js, l. 16-64) *)

Definition chars : string := "ABCDEFGHJKLMNPQRSTUVWXYZ23456789".

(** One round of the loop body: [chars.charAt(Math.floor(Math.random() *
    chars.length))]. *)
Definition pick (r : Q) : string :=
  charAt chars (rand_index r (String.length chars)).

(** The four rounds of the [for] loop, on four draws. *)
Definition code_of (r0 r1 r2 r3 : Q) : string :=
  fold_left (fun code r => code +:+ pick r) [r0; r1; r2; r3] "".

(** [generateRoomCode()]: a code and the draws left, or [None] when the
    draws run out before a code free in [rooms] comes up. *)
Fixpoint generateRoomCode (rs : Registry) (draws : list Q)
  : option (string * list Q) :=
  match draws with
  | r0 :: r1 :: r2 :: r3 :: rest =>
      let code := code_of r0 r1 r2 r3 in
      if rooms_has code rs then generateRoomCode rs rest
      else Some (code, rest)
  | _ => None
  end.

Definition fresh_room : Room.t :=
  {| Room.moderatorId := None; Room.players := []; Room.status := waiting |}.

(** [getRoom(roomId)]: the room and the registry after the lookup. *)
Definition getRoom (roomId : string) (rs : Registry) : Room.t * Registry :=
  match rooms_get roomId rs with
  | Some room => (room, rs)
  | None => (fresh_room, rooms_set roomId fresh_room rs)
  end.

Definition buildRoleSummary (players : list Player.t) : list (JsVal * JsVal) :=
  map (fun p => (Player.name p, Player.role p)) players.

(** [if (room.moderatorId) io.to(room.moderatorId).emit(...)]. *)
Definition to_moderator (tr : Adapter) (room : Room.t) (m : Msg)
  : list Emission :=
  match Room.moderatorId room with
  | Some mid => if truthy_str mid then [io_to_emit tr mid m] else []
  | None => []
  end.

(** The body of the loop of [cleanupUser] for one entry: the room as it is
    left ([None] when it is deleted) and what was emitted. *)
Definition cleanupRoom (tr : Adapter) (socketId roomId : string)
    (room : Room.t) : option Room.t * list Emission :=
  let '(room1, out1) :=
    if decide (Room.moderatorId room = Some socketId)
    then (Room.set_moderatorId None room,
          [io_to_emit tr roomId (mod_status_update false)])
    else (room, []) in
  let before := length (Room.players room1) in
  let room2 :=
    Room.set_players
      (filter (fun p => Player.id p <> socketId) (Room.players room1)) room1 in
  let out2 :=
    if decide (length (Room.players room2) <> before)
    then io_to_emit tr roomId (player_count_update (length (Room.players room2)))
         :: to_moderator tr room2 (player_list_update (Room.players room2))
    else [] in
  if bool_decide (length (Room.players room2) = 0)
     && negb (truthy_id (Room.moderatorId room2))
  then (None, out1 ++ out2)
  else (Some room2, out1 ++ out2).

(** [cleanupUser(socketId)]: the entries are visited in order; deleting
    the entry being visited does not disturb the iteration. *)
Fixpoint cleanupUser (tr : Adapter) (socketId : string) (rs : Registry)
  : Registry * list Emission :=
  match rs with
  | [] => ([], [])
  | (roomId, room) :: rest =>
      let '(kept, out) := cleanupRoom tr socketId roomId room in
      let '(rest', out') := cleanupUser tr socketId rest in
      (match kept with
       | Some room' => (roomId, room') :: rest'
       | None => rest'
       end, out ++ out')
  end.

(** ** Socket handlers (server.js, l. 66-181) *)

(** [create_room]: the handler takes no payload. *)
Definition create_room (socket_id : string) (draws : list Q) (st : State)
  : Outcome :=
  match generateRoomCode (rooms st) draws with
  | None => Starved
  | Some (code, _) =>
      let '(room0, rs1) := getRoom code (rooms st) in
      let room := Room.set_moderatorId (Some socket_id) room0 in
      let tr := socket_join socket_id code (io st) in
      Returned {| rooms := rooms_set code room rs1; io := tr |}
        [ socket_emit socket_id (room_created code);
          socket_emit socket_id (role_assigned moderator None);
          socket_emit socket_id (player_list_update (Room.players room));
          socket_emit socket_id (init_state true 0) ]
  end.

Definition no_room_text (code : string) : string :=
  "Phòng " +:+ dquote +:+ code +:+ dquote +:+ " không tồn tại!".

(** [join_room], payload [{ roomId, name }]. *)
Definition join_room (socket_id : string) (payload : JsVal) (st : State)
  : Outcome :=
  if nullish payload then Threw st [] else
  let roomId := field payload "roomId" in
  let name := field payload "name" in
  match roomId with
  | JStr s =>
      let code := trim (toUpperCase s) in
      match rooms_get code (rooms st) with
      | None => Returned st [socket_emit socket_id (error_msg (no_room_text code))]
      | Some room =>
          let tr := socket_join socket_id code (io st) in
          let isExist :=
            list_find (fun p => Player.id p = socket_id) (Room.players room) in
          let players :=
            match isExist with
            | Some _ => Room.players room
            | None =>
                Room.players room ++
                [ {| Player.id := socket_id;
                     Player.name :=
                       if truthy name then name
                       else JStr ("Player_" +:+ substr0 socket_id 4);
                     Player.role := JNull |} ]
            end in
          let room' := Room.set_players players room in
          Returned {| rooms := rooms_set code room' (rooms st); io := tr |}
            ([ socket_emit socket_id (role_assigned player (Some code));
               io_to_emit tr code (player_count_update (length players)) ]
             ++ to_moderator tr room' (player_list_update players)
             ++ [ socket_emit socket_id
                    (init_state (truthy_id (Room.moderatorId room'))
                                (length players)) ])
      end
  | _ => Threw st []   (* roomId.toUpperCase is not a function *)
  end.

(** The swap [[a[i], a[j]] = [a[j], a[i]]].  Both indices are below the
    length whenever the draw is in the unit interval ([rand_index_lt]). *)
Definition swap (i j : nat) (a : list JsVal) : list JsVal :=
  let x := a !!! j in
  let y := a !!! i in
  <[j := y]> (<[i := x]> a).

(** The loop [for (let i = shuffled.length - 1; i > 0; i--)], entered with
    its first [i]. *)
Fixpoint fisher_yates (i : nat) (draws : list Q) (shuffled : list JsVal)
  : option (list JsVal * list Q) :=
  match i with
  | 0 => Some (shuffled, draws)
  | S i' =>
      match draws with
      | [] => None
      | r :: rest =>
          let j := rand_index r (i + 1) in
          fisher_yates i' rest (swap i j shuffled)
      end
  end.

Definition mismatch_text (roles : JsVal) (players : nat) : string :=
  "Không khớp! Roles: " +:+ js_toString roles
  +:+ ", Players: " +:+ pretty players.

(** [rooms.get(roomId)] for a payload value: only a string can be a key. *)
Definition lookup_room (roomId : JsVal) (rs : Registry)
  : option (string * Room.t) :=
  match roomId with
  | JStr k => match rooms_get k rs with
              | Some room => Some (k, room)
              | None => None
              end
  | _ => None
  end.

(** [start_assign_roles], payload [{ roomId, selectedRoles }]. *)
Definition start_assign_roles (socket_id : string) (payload : JsVal)
    (draws : list Q) (st : State) : Outcome :=
  if nullish payload then Threw st [] else
  let roomId := field payload "roomId" in
  let selectedRoles := field payload "selectedRoles" in
  match lookup_room roomId (rooms st) with
  | None => Returned st []
  | Some (code, room) =>
      if decide (Some socket_id <> Room.moderatorId room) then Returned st []
      else
        match js_length selectedRoles with
        | None => Threw st []
        | Some len =>
            if negb (is_num len (length (Room.players room)))
            then Returned st
                   [socket_emit socket_id
                      (error_msg (mismatch_text len (length (Room.players room))))]
            else
              match js_spread selectedRoles with
              | None => Threw st []
              | Some roles =>
                  match fisher_yates (length roles - 1) draws roles with
                  | None => Starved
                  | Some (shuffled, _) =>
                      let players :=
                        imap (fun index p => Player.set_role (shuffled !!! index) p)
                             (Room.players room) in
                      let out :=
                        map (fun p => io_to_emit (io st) (Player.id p)
                                        (receive_role (Player.role p)))
                            players in
                      let room' :=
                        Room.set_status assigned (Room.set_players players room) in
                      Returned {| rooms := rooms_set code room' (rooms st);
                                  io := io st |}
                        (out ++
                         [ socket_emit socket_id
                             (role_summary (buildRoleSummary players));
                           socket_emit socket_id
                             (status_msg "Đã chia bài thành công!") ])
                  end
              end
        end
  end.

(** [reset_room], payload [{ roomId }]. *)
Definition reset_room (socket_id : string) (payload : JsVal) (st : State)
  : Outcome :=
  if nullish payload then Threw st [] else
  let roomId := field payload "roomId" in
  match lookup_room roomId (rooms st) with
  | None => Returned st []
  | Some (code, room) =>
      if decide (Some socket_id <> Room.moderatorId room) then Returned st []
      else
        let players := map (Player.set_role JNull) (Room.players room) in
        let room' := Room.set_status waiting (Room.set_players players room) in
        Returned {| rooms := rooms_set code room' (rooms st); io := io st |}
          [ io_to_emit (io st) code room_reset;
            socket_emit socket_id (player_list_update players);
            socket_emit socket_id (player_count_update (length players));
            socket_emit socket_id (status_msg "Đã reset! Sẵn sàng chia lại.") ]
  end.

(** [kick_player], payload [{ roomId, playerId }]. *)
Definition kick_player (socket_id : string) (payload : JsVal) (st : State)
  : Outcome :=
  if nullish payload then Threw st [] else
  let roomId := field payload "roomId" in
  let playerId := field payload "playerId" in
  match lookup_room roomId (rooms st) with
  | None => Returned st []
  | Some (code, room) =>
      if decide (Some socket_id <> Room.moderatorId room) then Returned st []
      else
        let players :=
          filter (fun p => Some (Player.id p) <> as_string playerId)
                 (Room.players room) in
        let room' := Room.set_players players room in
        (* past the guard, room.moderatorId is socket_id *)
        let out :=
          [ io_to_emit (io st) code (player_count_update (length players));
            io_to_emit (io st) socket_id (player_list_update players) ] in
        let targetSocket :=
          match as_string playerId with
          | Some pid => if sockets_has pid (io st) then Some pid else None
          | None => None
          end in
        match targetSocket with
        | Some pid =>
            Returned {| rooms := rooms_set code room' (rooms st);
                        io := socket_leave pid code (io st) |}
              (out ++
               [ socket_emit pid kicked;
                 socket_emit pid
                   (error_msg "Bạn đã bị Quản trò kick khỏi phòng.") ])
        | None =>
            Returned {| rooms := rooms_set code room' (rooms st); io := io st |}
              out
        end
  end.

(** [disconnect]: the transport has dropped the connection from every
    group before the handler runs. *)
Definition disconnect (socket_id : string) (st : State) : Outcome :=
  let tr := sockets_remove socket_id (io st) in
  let '(rs, out) := cleanupUser tr socket_id (rooms st) in
  Returned {| rooms := rs; io := tr |} out.

(** [io.on('connection', ...)]: the new connection is registered; the
    listeners installed for it are the handlers above. *)
Definition connection (socket_id : string) (st : State) : Outcome :=
  Returned {| rooms := rooms st; io := io st ++ [(socket_id, [])] |} [].

(** ** The event router *)

(** What a connection can make the server handle: its own arrival, the
    five messages of the protocol with their payload, its departure. *)
Inductive Event :=
| EConnection
| ECreateRoom (draws : list Q)
| EJoinRoom (payload : JsVal)
| EStartAssignRoles (payload : JsVal) (draws : list Q)
| EResetRoom (payload : JsVal)
| EKickPlayer (payload : JsVal)
| EDisconnect.

Definition handle (socket_id : string) (ev : Event) (st : State) : Outcome :=
  match ev with
  | EConnection => connection socket_id st
  | ECreateRoom draws => create_room socket_id draws st
  | EJoinRoom payload => join_room socket_id payload st
  | EStartAssignRoles payload draws => start_assign_roles socket_id payload draws st
  | EResetRoom payload => reset_room socket_id payload st
  | EKickPlayer payload => kick_player socket_id payload st
  | EDisconnect => disconnect socket_id st
  end.

(** The state at the end of a handler call, and what the call has
    emitted; for a call that raises, at the raise.  A raise ends the
    process; as it comes before any mutation ([handle_threw]), the states
    reached through [after] are those reached through calls that return
    ([reachable_returned]). *)
Definition after (o : Outcome) : option State :=
  match o with
  | Returned st _ | Threw st _ => Some st
  | Starved => None
  end.

Definition emitted (o : Outcome) : list Emission :=
  match o with
  | Returned _ out | Threw _ out => out
  | Starved => []
  end.

(** Connection identifiers are tokens issued by the transport (20
    characters in socket.io): never empty, never of the length of a room
    code. *)
Definition valid_sid (sid : string) : Prop :=
  sid <> "" /\ String.length sid <> 4.

(** The outcomes of the [Math.random()] calls made while the event is
    handled. *)
Definition event_draws (ev : Event) : list Q :=
  match ev with
  | ECreateRoom draws | EStartAssignRoles _ draws => draws
  | _ => []
  end.

(** What the environment may deliver: an event of a connection with a
    transport identifier, with draws of the unit interval. *)
Definition admissible (sid : string) (ev : Event) : Prop :=
  valid_sid sid /\ Forall valid_draw (event_draws ev).

(** The states the server can be in: it starts with an empty registry and
    handles one event after the other. *)
Inductive reachable : State -> Prop :=
| reach_init : reachable init
| reach_step st sid ev st' :
    reachable st ->
    admissible sid ev ->
    after (handle sid ev st) = Some st' ->
    reachable st'.

(** ** Notions used in the statements *)

(** The codes tried by [generateRoomCode], one for every four draws. *)
Fixpoint attempts (draws : list Q) : list string :=
  match draws with
  | r0 :: r1 :: r2 :: r3 :: rest => code_of r0 r1 r2 r3 :: attempts rest
  | _ => []
  end.

(** The alphabet in the words of the specification: uppercase letters and
    digits, without I, O, 0 and 1. *)
Definition is_code_symbol (c : ascii) : bool :=
  let n := nat_of_ascii c in
  (((65 <=? n)%nat && (n <=? 90)%nat) || ((48 <=? n)%nat && (n <=? 57)%nat))
  && negb (bool_decide (c ∈ list_ascii_of_string "IO01")).

(** The room as the departure of connection [sid] leaves it: no longer
    its moderator, no longer among its players. *)
Definition without (sid : string) (room : Room.t) : Room.t :=
  {| Room.moderatorId :=
       if decide (Room.moderatorId room = Some sid) then None
       else Room.moderatorId room;
     Room.players := filter (fun p => Player.id p <> sid) (Room.players room);
     Room.status := Room.status room |}.

(** A room with no player and no moderator. *)
Definition deserted (room : Room.t) : bool :=
  bool_decide (Room.players room = [])
  && negb (truthy_id (Room.moderatorId room)).

(** What the departure of [sid] makes a room announce: the loss of the
    moderator to the group if [sid] was the moderator; the new count to the
    group, and the new list to the moderator still there, if [sid] was among
    the players. *)
Definition leave_notices (tr : Adapter) (sid code : string) (room : Room.t)
  : list Emission :=
  (if decide (Room.moderatorId room = Some sid)
   then [io_to_emit tr code (mod_status_update false)] else [])
  ++
  (if decide (sid ∈ map Player.id (Room.players room))
   then io_to_emit tr code
          (player_count_update (length (Room.players (without sid room))))
        :: to_moderator tr (without sid room)
             (player_list_update (Room.players (without sid room)))
   else []).

(** The connection identifiers of the players of a room, in order. *)
Definition ids (room : Room.t) : list string :=
  map Player.id (Room.players room).

(** What holds of every entry of the registry of a reachable state: the
    key is a 4-symbol code, the room has a player or a moderator, no
    connection is listed twice, and the identifiers are the transport's. *)
Definition room_ok (e : string * Room.t) : Prop :=
  String.length e.1 = 4 /\
  (ids e.2 <> [] \/ truthy_id (Room.moderatorId e.2) = true) /\
  NoDup (ids e.2) /\
  Forall valid_sid (ids e.2) /\
  (forall m, Room.moderatorId e.2 = Some m -> valid_sid m).

(** What holds of every connection: its identifier is the transport's
    and the groups it joined are named by 4-symbol codes. *)
Definition conn_ok (c : string * list string) : Prop :=
  valid_sid c.1 /\ Forall (fun g => String.length g = 4) c.2.

Definition invariant (st : State) : Prop :=
  NoDup (map fst (rooms st)) /\
  Forall room_ok (rooms st) /\
  Forall conn_ok (io st).



(** The caller is not the moderator of the room the payload names, or the
    payload names no room. *)
Definition not_moderator (st : State) (sid : string) (payload : JsVal) : Prop :=
  forall code room,
    lookup_room (field payload "roomId") (rooms st) = Some (code, room) ->
    Room.moderatorId room <> Some sid.





(** An emission made when the registry is [rs] keeps the roles private: a
    [receive_role] carries the role of a player of some room and reaches
    that player's connection only; a [role_summary] or a
    [player_list_update] describes the players of some room and reaches
    the moderator of that room only.  No other message carries a role. *)
Definition private (rs : Registry) (e : Emission) : Prop :=
  match em_msg e with
  | receive_role v =>
      exists code room p,
        rooms_get code rs = Some room /\ p ∈ Room.players room /\
        Player.role p = v /\ em_to e = ToGroup (Player.id p) /\
        forall r, r ∈ em_rcpts e -> r = Player.id p
  | role_summary rows =>
      exists code room,
        rooms_get code rs = Some room /\
        rows = buildRoleSummary (Room.players room) /\
        forall r, r ∈ em_rcpts e -> Room.moderatorId room = Some r
  | player_list_update ps =>
      exists code room,
        rooms_get code rs = Some room /\ ps = Room.players room /\
        forall r, r ∈ em_rcpts e -> Room.moderatorId room = Some r
  | _ => True
  end.

(** The message carries the role value [v]. *)
Definition carries (m : Msg) (v : JsVal) : Prop :=
  match m with
  | receive_role v' => v' = v
  | role_summary rows => v ∈ map snd rows
  | player_list_update ps => v ∈ map Player.role ps
  | _ => False
  end.

(** ** A sample session

    A moderator opens a room, two players join it; the states below are
    computed by the handlers and serve as concrete inputs for the examples. *)

Fixpoint run (st : State) (evs : list (string * Event)) : option State :=
  match evs with
  | [] => Some st
  | (sid, ev) :: rest =>
      match after (handle sid ev st) with
      | Some st' => run st' rest
      | None => None
      end
  end.

Definition sidM : string := "MMMMMMMMMMMMMMMMMMMM".
Definition sidA : string := "AAAAAAAAAAAAAAAAAAAA".
Definition sidB : string := "BBBBBBBBBBBBBBBBBBBB".

Definition join_payload (roomId : string) (name : JsVal) : JsVal :=
  JObj [("roomId", JStr roomId); ("name", name)].

Definition roles_payload (roomId : string) (roles : list JsVal) : JsVal :=
  JObj [("roomId", JStr roomId); ("selectedRoles", JArr roles)].

Definition demo_trace : list (string * Event) :=
  [ (sidM, EConnection); (sidA, EConnection); (sidB, EConnection);
    (sidM, ECreateRoom [0; 1 # 2; 3 # 4; 31 # 32]%Q);
    (sidA, EJoinRoom (join_payload " as29 " (JStr "Ana")));
    (sidB, EJoinRoom (join_payload "AS29" JUndefined)) ].

Definition demo_state : State :=
  Eval vm_compute in default init (run init demo_trace).

Definition demo_room : Room.t :=
  Eval vm_compute in default fresh_room (rooms_get "AS29" (rooms demo_state)).

(** Another session: the moderator joins the room it has opened. *)
Definition own_room_trace : list (string * Event) :=
  [ (sidM, EConnection);
    (sidM, ECreateRoom [0; 1 # 2; 3 # 4; 31 # 32]%Q);
    (sidM, EJoinRoom (join_payload "AS29" JNull)) ].

Definition own_room_state : State :=
  Eval vm_compute in default init (run init own_room_trace).

(** ** Notions used in the further properties *)

(** A room code: four symbols of [chars]. *)
Definition is_code (c : string) : Prop :=
  String.length c = 4 /\
  forall a, a ∈ list_ascii_of_string c -> a ∈ list_ascii_of_string chars.

(** A draw for which [Math.floor(Math.random() * chars.length)] is [j]. *)
Definition draw_for (j : nat) : Q := Z.of_nat j # 32.

(** The connection [sid] has no part in the room: it is neither its
    moderator nor one of its players. *)
Definition absent_from (sid : string) (room : Room.t) : Prop :=
  Room.moderatorId room <> Some sid /\ sid ∉ ids room.

(** How the event [ev] of connection [sid] can turn a registered room
    into what is registered in its place afterwards: not at all, or by the
    one update its handler makes. *)
Inductive room_step (sid : string) : Event -> Room.t -> Room.t -> Prop :=
| step_same ev r : room_step sid ev r r
| step_join payload r p :
    Player.id p = sid -> Player.role p = JNull -> sid ∉ ids r ->
    room_step sid (EJoinRoom payload) r
      (Room.set_players (Room.players r ++ [p]) r)
| step_assign payload draws r ps :
    Room.moderatorId r = Some sid ->
    map Player.id ps = ids r ->
    room_step sid (EStartAssignRoles payload draws) r
      (Room.set_status assigned (Room.set_players ps r))
| step_reset payload r :
    Room.moderatorId r = Some sid ->
    room_step sid (EResetRoom payload) r
      (Room.set_status waiting
         (Room.set_players (map (Player.set_role JNull) (Room.players r)) r))
| step_kick payload r :
    Room.moderatorId r = Some sid ->
    room_step sid (EKickPlayer payload) r
      (Room.set_players
         (filter (fun p => Some (Player.id p)
                           <> as_string (field payload "playerId"))
                 (Room.players r)) r)
| step_leave r : room_step sid EDisconnect r (without sid r).

(** The room a moderator has just opened. *)
Definition opened_room (sid : string) : Room.t :=
  {| Room.moderatorId := Some sid; Room.players := [];
     Room.status := waiting |}.

(** A connection the server can hear from: [connection] is its first
    event, every other event comes from a connection the transport still
    holds. *)
Definition live (sid : string) (ev : Event) (st : State) : Prop :=
  ev = EConnection \/ sockets_has sid (io st) = true.

Fixpoint live_run (st : State) (evs : list (string * Event)) : Prop :=
  match evs with
  | [] => True
  | (sid, ev) :: rest =>
      live sid ev st /\
      match after (handle sid ev st) with
      | Some st' => live_run st' rest
      | None => True
      end
  end.

(** Every player of every room is reached by [io.to(code)] of its room. *)
Definition listening (st : State) : Prop :=
  forall code room sid,
    (code, room) ∈ rooms st -> sid ∈ ids room -> sid ∈ members (io st) code.

(** * Properties *)

(** ** Runs of the server *)

Lemma run_reachable (evs : list (string * Event)) (st st' : State) :
  reachable st ->
  Forall (fun e => admissible e.1 e.2) evs ->
  run st evs = Some st' -> reachable st'.
Proof.
  revert st. induction evs as [|[sid ev] evs IH]; simpl; intros st Hst Hadm.
  - by intros [= <-].
  - apply Forall_cons in Hadm as [Ha Hadm]. simpl in Ha.
    destruct (after (handle sid ev st)) as [st1|] eqn:Hstep; [|discriminate].
    apply IH; [|done]. by eapply reach_step.
Qed.

Ltac solve_draw := split; vm_compute; congruence.

Ltac solve_sid := split; [discriminate | vm_compute; lia].

Ltac solve_draws :=
  repeat (apply List.Forall_cons; [solve_draw|]); apply List.Forall_nil.

Ltac solve_adm := split; [solve_sid | simpl; solve_draws].

Lemma valid_draw_0 : valid_draw 0.
Proof. solve_draw. Qed.

Lemma demo_reachable : reachable demo_state.
Proof.
  apply (run_reachable demo_trace init); [constructor| |reflexivity].
  unfold demo_trace.
  repeat (apply List.Forall_cons; [solve_adm|]). apply List.Forall_nil.
Qed.

(** ** Randomness and strings *)

Lemma rand_index_lt (r : Q) (k : nat) :
  valid_draw r -> (0 < k)%nat -> (rand_index r k < k)%nat.
Proof.
  intros [_ Hr] Hk. unfold rand_index.
  set (K := Z.of_nat k).
  assert (HK : (inject_Z 0 < inject_Z K)%Q) by (rewrite <- Zlt_Qlt; lia).
  assert (Hlt : (Qfloor (r * inject_Z K) < K)%Z).
  { rewrite Zlt_Qlt.
    eapply Qle_lt_trans; [apply Qfloor_le|].
    apply Qlt_le_trans with (1 * inject_Z K)%Q.
    - by apply Qmult_lt_compat_r.
    - rewrite Qmult_1_l. apply Qle_refl. }
  subst K. lia.
Qed.

Lemma get_elem_of (s : string) (k : nat) (c : ascii) :
  String.get k s = Some c -> c ∈ list_ascii_of_string s.
Proof.
  revert k. induction s as [|a s IH]; intros [|k] H; simpl in *; try done.
  - injection H as ->. left.
  - right. eauto.
Qed.

Lemma get_is_Some (s : string) (k : nat) :
  (k < String.length s)%nat -> is_Some (String.get k s).
Proof.
  revert k. induction s as [|a s IH]; intros [|k] H; simpl in *;
    try lia; eauto.
  apply IH. lia.
Qed.

Lemma pick_symbol (r : Q) :
  valid_draw r ->
  exists c, pick r = String c EmptyString /\ c ∈ list_ascii_of_string chars.
Proof.
  intros Hr. unfold pick, charAt.
  destruct (get_is_Some chars (rand_index r (String.length chars))) as [c Hc].
  { apply rand_index_lt; [done|]. vm_compute. lia. }
  rewrite Hc. eauto using get_elem_of.
Qed.

Lemma code_of_symbols (r0 r1 r2 r3 : Q) :
  valid_draw r0 -> valid_draw r1 -> valid_draw r2 -> valid_draw r3 ->
  String.length (code_of r0 r1 r2 r3) = 4%nat /\
  forall c, c ∈ list_ascii_of_string (code_of r0 r1 r2 r3) ->
            c ∈ list_ascii_of_string chars.
Proof.
  intros H0 H1 H2 H3. unfold code_of. simpl.
  destruct (pick_symbol r0 H0) as (c0 & -> & I0).
  destruct (pick_symbol r1 H1) as (c1 & -> & I1).
  destruct (pick_symbol r2 H2) as (c2 & -> & I2).
  destruct (pick_symbol r3 H3) as (c3 & -> & I3).
  simpl. split; [done|].
  intros c Hc. repeat (apply elem_of_cons in Hc as [->|Hc]; [done|]).
  by apply elem_of_nil in Hc.
Qed.

Lemma chars_is_code_symbol (c : ascii) :
  bool_decide (c ∈ list_ascii_of_string chars) = is_code_symbol c.
Proof.
  destruct c as [[] [] [] [] [] [] [] []]; vm_compute; reflexivity.
Qed.

Lemma draws_ind4 (P : list Q -> Prop) :
  P [] -> (forall a, P [a]) -> (forall a b, P [a; b]) ->
  (forall a b c, P [a; b; c]) ->
  (forall a b c d rest, P rest -> P (a :: b :: c :: d :: rest)) ->
  forall l, P l.
Proof.
  intros H0 H1 H2 H3 H4. fix IH 1.
  intros [|a [|b [|c [|d rest]]]];
    [apply H0 | apply H1 | apply H2 | apply H3 | apply H4, IH].
Qed.

Lemma rooms_has_false (k : string) (rs : Registry) :
  rooms_has k rs = false <-> rooms_get k rs = None.
Proof.
  unfold rooms_has. rewrite bool_decide_eq_false.
  rewrite <- eq_None_not_Some. done.
Qed.

(** ** Room codes ([generateRoomCode]) *)

Lemma attempts_symbols (draws : list Q) :
  Forall valid_draw draws ->
  Forall (fun code =>
            String.length code = 4%nat /\
            forall c, c ∈ list_ascii_of_string code ->
                      c ∈ list_ascii_of_string chars)
         (attempts draws).
Proof.
  induction draws as [| | | |r0 r1 r2 r3 rest IH] using draws_ind4;
    intros H; simpl; try constructor.
  - repeat (apply Forall_cons in H as [? H]). by apply code_of_symbols.
  - apply IH. by do 4 (apply Forall_cons in H as [_ H]).
Qed.

Lemma generateRoomCode_returns (rs : Registry) (draws : list Q) :
  is_Some (generateRoomCode rs draws) <->
  Exists (fun code => rooms_get code rs = None) (attempts draws).
Proof.
  induction draws as [| | | |r0 r1 r2 r3 rest IH] using draws_ind4; simpl;
    try (split; [intros [? ?]; discriminate | intros H; inversion H]).
  destruct (rooms_has _ rs) eqn:Hhas.
  - rewrite IH. split; [by right|].
    intros H. apply Exists_cons in H as [H|H]; [|done].
    apply rooms_has_false in H. congruence.
  - split; [|by eauto]. intros _. left. by apply rooms_has_false.
Qed.

Lemma generateRoomCode_attempt (rs : Registry) (draws : list Q)
    (code : string) (rest : list Q) :
  generateRoomCode rs draws = Some (code, rest) ->
  code ∈ attempts draws /\ rooms_get code rs = None.
Proof.
  induction draws as [| | | |r0 r1 r2 r3 tl IH] using draws_ind4; simpl;
    try discriminate.
  destruct (rooms_has _ rs) eqn:Hhas.
  - intros H. destruct (IH H). split; [by right|done].
  - intros [= <- <-]. split; [left|by apply rooms_has_false].
Qed.

Lemma generateRoomCode_fresh (rs : Registry) (draws : list Q)
    (code : string) (rest : list Q) :
  Forall valid_draw draws ->
  generateRoomCode rs draws = Some (code, rest) ->
  String.length code = 4%nat /\ rooms_get code rs = None.
Proof.
  intros Hd H. apply generateRoomCode_attempt in H as [Hin Hfree].
  pose proof (attempts_symbols draws Hd) as Hall.
  rewrite Forall_forall in Hall. destruct (Hall _ Hin). done.
Qed.

(** C2, as the claim words it, fails: the alphabet of the code has 32
    symbols, and uppercase letters and digits without I, O, 0 and 1 cannot
    make 33 distinct symbols. *)
Lemma alphabet_has_not_33_symbols :
  String.length chars = 32%nat /\
  ~ exists l : list ascii,
      NoDup l /\ length l = 33%nat /\ forall c, c ∈ l -> is_code_symbol c = true.
Proof.
  split; [reflexivity|]. intros (l & Hnd & Hlen & Hl).
  assert (Hsub : l ⊆+ list_ascii_of_string chars).
  { apply NoDup_submseteq; [done|]. intros c Hc.
    apply Hl in Hc. rewrite <- chars_is_code_symbol in Hc.
    by apply bool_decide_eq_true in Hc. }
  apply submseteq_length in Hsub. rewrite Hlen in Hsub.
  vm_compute in Hsub. lia.
Qed.

(** C2 (amended): the alphabet has 32 symbols, the uppercase letters and
    digits without I, O, 0 and 1, each once; [generateRoomCode] returns as
    soon as one of the codes it tries is free in the registry, and every
    code it returns has exactly 4 symbols of that alphabet and is the code
    of no room in the registry. *)
Theorem generateRoomCode_sound (rs : Registry) (draws : list Q) :
  Forall valid_draw draws ->
  (String.length chars = 32%nat /\
   NoDup (list_ascii_of_string chars) /\
   forall c, c ∈ list_ascii_of_string chars <-> is_code_symbol c = true) /\
  (is_Some (generateRoomCode rs draws) <->
   Exists (fun code => rooms_get code rs = None) (attempts draws)) /\
  forall code rest,
    generateRoomCode rs draws = Some (code, rest) ->
    String.length code = 4%nat /\
    (forall c, c ∈ list_ascii_of_string code ->
               c ∈ list_ascii_of_string chars) /\
    rooms_get code rs = None.
Proof.
  intros Hd. split; [|split].
  - split; [reflexivity|]. split.
    + apply (bool_decide_unpack _). by vm_compute.
    + intros c. rewrite <- chars_is_code_symbol.
      symmetry. apply bool_decide_eq_true.
  - apply generateRoomCode_returns.
  - intros code rest H.
    apply generateRoomCode_attempt in H as [Hin Hfree].
    pose proof (attempts_symbols draws Hd) as Hall.
    rewrite Forall_forall in Hall. destruct (Hall _ Hin). done.
Qed.

Lemma generateRoomCode_sound_witness :
  Forall valid_draw [0; 0; 0; 0]%Q /\
  generateRoomCode [("AAAB", fresh_room)] [0; 0; 0; 0]%Q = Some ("AAAA", []) /\
  String.length "AAAA" = 4%nat /\
  rooms_get "AAAA" [("AAAB", fresh_room)] = None.
Proof.
  assert (Hd : Forall valid_draw [0; 0; 0; 0]%Q)
    by (repeat constructor; apply valid_draw_0).
  split; [exact Hd|]. split; [reflexivity|].
  destruct (generateRoomCode_sound [("AAAB", fresh_room)] [0; 0; 0; 0]%Q Hd)
    as (_ & _ & H).
  destruct (H "AAAA" [] eq_refl) as (H4 & _ & Hfree).
  split; [exact H4 | exact Hfree].
Defined.

(** ** The registry *)

Lemma rooms_set_same (k : string) (v : Room.t) (rs : Registry) :
  rooms_get k rs = Some v -> rooms_set k v rs = rs.
Proof.
  unfold rooms_get. induction rs as [|[k' v'] rs IH]; simpl; [done|].
  destruct (decide (k' = k)) as [->|Hne].
  - by intros [= ->].
  - intros H. by rewrite IH.
Qed.

Lemma rooms_get_set (k k' : string) (v : Room.t) (rs : Registry) :
  rooms_get k' (rooms_set k v rs) =
  if decide (k = k') then Some v else rooms_get k' rs.
Proof.
  unfold rooms_get. induction rs as [|[k0 v0] rs IH]; simpl.
  - destruct (decide (k = k')); done.
  - destruct (decide (k0 = k)) as [->|Hne]; simpl.
    + destruct (decide (k = k')); done.
    + destruct (decide (k0 = k')) as [->|Hne'].
      * by rewrite decide_False by done.
      * done.
Qed.

Lemma room_eta (r : Room.t) :
  Room.set_players (Room.players r) r = r.
Proof. by destruct r. Qed.

Lemma lookup_room_Some (v : JsVal) (rs : Registry) (k : string) (room : Room.t) :
  lookup_room v rs = Some (k, room) <-> v = JStr k /\ rooms_get k rs = Some room.
Proof.
  unfold lookup_room. split.
  - destruct v; try discriminate.
    destruct (rooms_get s rs) eqn:E; [|discriminate]. by intros [= -> ->].
  - intros [-> ->]. done.
Qed.

Lemma pretty_Z_of_nat (n : nat) : pretty (Z.of_nat n) = pretty n.
Proof. destruct n; reflexivity. Qed.

(** ** Guards of the moderator actions *)

(** C3: when the moderator of a room supplies a role list whose length K
    is not the player count N, the state is returned as it was, and exactly
    one message is emitted, an [error_msg] to the moderator's own connection
    whose text spells both K and N. *)
Theorem start_assign_roles_mismatch (st : State) (sid code : string)
    (room : Room.t) (payload : JsVal) (roles : list JsVal) (draws : list Q) :
  nullish payload = false ->
  field payload "roomId" = JStr code ->
  field payload "selectedRoles" = JArr roles ->
  rooms_get code (rooms st) = Some room ->
  Room.moderatorId room = Some sid ->
  length roles <> length (Room.players room) ->
  start_assign_roles sid payload draws st =
  Returned st
    [ {| em_to := ToSocket sid;
         em_rcpts := [sid];
         em_msg := error_msg ("Không khớp! Roles: " +:+ pretty (length roles)
                              +:+ ", Players: "
                              +:+ pretty (length (Room.players room))) |} ].
Proof.
  intros Hn Hid Hroles Hget Hmod Hlen. unfold start_assign_roles.
  rewrite Hn, Hid, Hroles. simpl. rewrite Hget, Hmod.
  rewrite decide_False by (intros H; by apply H).
  rewrite (proj2 (Z.eqb_neq _ _)) by lia. simpl.
  unfold mismatch_text. simpl. by rewrite pretty_Z_of_nat.
Qed.

(** C8: a moderator action of a connection that is not the moderator of
    the room named in the payload (or that names no room) leaves the state
    as it was and emits nothing at all, whatever the payload; with a payload
    that is an object the handler simply returns. *)
Theorem non_moderator_ignored (st : State) (sid : string) (payload : JsVal)
    (draws : list Q) :
  not_moderator st sid payload ->
  (after (start_assign_roles sid payload draws st) = Some st /\
   emitted (start_assign_roles sid payload draws st) = []) /\
  (after (reset_room sid payload st) = Some st /\
   emitted (reset_room sid payload st) = []) /\
  (after (kick_player sid payload st) = Some st /\
   emitted (kick_player sid payload st) = []) /\
  (nullish payload = false ->
   start_assign_roles sid payload draws st = Returned st [] /\
   reset_room sid payload st = Returned st [] /\
   kick_player sid payload st = Returned st []).
Proof.
  intros Hmod.
  assert (H : start_assign_roles sid payload draws st =
                (if nullish payload then Threw st [] else Returned st []) /\
              reset_room sid payload st =
                (if nullish payload then Threw st [] else Returned st []) /\
              kick_player sid payload st =
                (if nullish payload then Threw st [] else Returned st [])).
  { unfold start_assign_roles, reset_room, kick_player.
    destruct (nullish payload); [done|].
    destruct (lookup_room _ _) as [[code room]|] eqn:E; [|done].
    specialize (Hmod code room E).
    destruct (decide (Some sid <> Room.moderatorId room)) as [_|Hc]; [done|].
    exfalso. apply Hc. intros H. by apply Hmod. }
  destruct H as (-> & -> & ->). destruct (nullish payload); simpl.
  - repeat split; discriminate.
  - repeat split; done.
Qed.

(** ** Joining *)

Lemma join_room_again (st : State) (sid s : string) (payload : JsVal)
    (room : Room.t) (p : Player.t) :
  nullish payload = false ->
  field payload "roomId" = JStr s ->
  rooms_get (trim (toUpperCase s)) (rooms st) = Some room ->
  p ∈ Room.players room ->
  Player.id p = sid ->
  let code := trim (toUpperCase s) in
  let tr := socket_join sid code (io st) in
  join_room sid payload st =
  Returned {| rooms := rooms st; io := tr |}
    ([ socket_emit sid (role_assigned player (Some code));
       io_to_emit tr code (player_count_update (length (Room.players room))) ]
     ++ to_moderator tr room (player_list_update (Room.players room))
     ++ [ socket_emit sid
            (init_state (truthy_id (Room.moderatorId room))
                        (length (Room.players room))) ]).
Proof.
  intros Hn Hid Hget Hin Hp code tr. unfold join_room.
  subst code tr. rewrite Hn, Hid. cbv beta iota zeta. rewrite Hget.
  destruct (list_find_elem_of (fun q => Player.id q = sid)
              (Room.players room) p Hin Hp) as [[i q] Hfind].
  rewrite Hfind. rewrite room_eta. rewrite rooms_set_same by done. done.
Qed.

(** C10: a second [join_room] of a connection already among the players
    of the room leaves the registry as it was, whatever name the payload
    carries, so the stored record keeps its name and role; what is emitted
    is [role_assigned], [player_count_update], [player_list_update] (when
    there is a moderator) and [init_state], nothing else. *)
Theorem rejoin_keeps_record (st : State) (sid s : string) (payload : JsVal)
    (room : Room.t) (p : Player.t) :
  nullish payload = false ->
  field payload "roomId" = JStr s ->
  rooms_get (trim (toUpperCase s)) (rooms st) = Some room ->
  p ∈ Room.players room ->
  Player.id p = sid ->
  let code := trim (toUpperCase s) in
  let tr := socket_join sid code (io st) in
  join_room sid payload st =
  Returned {| rooms := rooms st; io := tr |}
    ([ socket_emit sid (role_assigned player (Some code));
       io_to_emit tr code (player_count_update (length (Room.players room))) ]
     ++ to_moderator tr room (player_list_update (Room.players room))
     ++ [ socket_emit sid
            (init_state (truthy_id (Room.moderatorId room))
                        (length (Room.players room))) ]).
Proof. apply join_room_again. Qed.

Lemma start_assign_roles_mismatch_witness :
  length [JStr "Wolf"] <> length (Room.players demo_room) /\
  start_assign_roles sidM (roles_payload "AS29" [JStr "Wolf"]) [] demo_state =
  Returned demo_state
    [ {| em_to := ToSocket sidM;
         em_rcpts := [sidM];
         em_msg := error_msg "Không khớp! Roles: 1, Players: 2" |} ].
Proof.
  assert (H : length [JStr "Wolf"] <> length (Room.players demo_room))
    by (simpl; lia).
  split; [exact H|].
  exact (start_assign_roles_mismatch demo_state sidM "AS29" demo_room
           (roles_payload "AS29" [JStr "Wolf"]) [JStr "Wolf"] []
           eq_refl eq_refl eq_refl eq_refl eq_refl H).
Defined.

Lemma non_moderator_ignored_witness :
  start_assign_roles sidA (roles_payload "AS29" [JStr "Wolf"; JStr "Seer"]) []
    demo_state = Returned demo_state [] /\
  reset_room sidA (roles_payload "AS29" []) demo_state = Returned demo_state [] /\
  kick_player sidA (roles_payload "AS29" []) demo_state = Returned demo_state [].
Proof.
  assert (Hmod : not_moderator demo_state sidA
                   (roles_payload "AS29" [JStr "Wolf"; JStr "Seer"])).
  { intros code room H. vm_compute in H. injection H as _ <-. discriminate. }
  destruct (non_moderator_ignored demo_state sidA
              (roles_payload "AS29" [JStr "Wolf"; JStr "Seer"]) [] Hmod)
    as (_ & _ & _ & H).
  destruct (H eq_refl) as (H1 & _ & _).
  split; [exact H1|]. split; reflexivity.
Defined.


Lemma rejoin_keeps_record_witness :
  rooms_get "AS29" (rooms demo_state) = Some demo_room /\
  exists out,
    join_room sidA (join_payload "as29" (JStr "Another name")) demo_state =
    Returned demo_state out /\
    map em_msg out =
    [ role_assigned player (Some "AS29"); player_count_update 2;
      player_list_update (Room.players demo_room); init_state true 2 ].
Proof.
  split; [reflexivity|].
  pose proof (rejoin_keeps_record demo_state sidA "as29"
                (join_payload "as29" (JStr "Another name")) demo_room
                {| Player.id := sidA; Player.name := JStr "Ana";
                   Player.role := JNull |}
                eq_refl eq_refl eq_refl
                ltac:(vm_compute; left) eq_refl) as H.
  eexists. split; [exact H|]. reflexivity.
Defined.

(** ** Role distribution *)

Lemma swap_length (i j : nat) (a : list JsVal) :
  length (swap i j a) = length a.
Proof. unfold swap. by rewrite !length_insert. Qed.

Lemma swap_perm (i j : nat) (a : list JsVal) :
  i < length a -> j < length a -> swap i j a ≡ₚ a.
Proof.
  intros Hi Hj. unfold swap.
  destruct (lookup_lt_is_Some_2 a i Hi) as [y Hy].
  destruct (lookup_lt_is_Some_2 a j Hj) as [x Hx].
  rewrite (list_lookup_total_correct a i y Hy).
  rewrite (list_lookup_total_correct a j x Hx).
  by apply Permutation_insert_swap.
Qed.

Lemma fisher_yates_perm (i : nat) (draws : list Q) (a : list JsVal) :
  i < length a \/ i = 0 ->
  Forall valid_draw draws ->
  i <= length draws ->
  exists s rest, fisher_yates i draws a = Some (s, rest) /\ s ≡ₚ a.
Proof.
  revert draws a. induction i as [|i IH]; intros draws a Hi Hd Hlen; simpl.
  - by exists a, draws.
  - destruct draws as [|r rest]; simpl in Hlen; [lia|].
    apply Forall_cons in Hd as [Hr Hd].
    destruct Hi as [Hi|Hi]; [|lia].
    assert (Hj : rand_index r (S i + 1) < S i + 1)
      by (apply rand_index_lt; [done|lia]).
    destruct (IH rest (swap (S i) (rand_index r (S i + 1)) a))
      as (s & rest' & Hfy & Hperm).
    + left. rewrite swap_length. lia.
    + done.
    + lia.
    + exists s, rest'. split; [done|].
      rewrite Hperm. apply swap_perm; lia.
Qed.

Lemma roles_of_assigned (shuffled : list JsVal) (ps : list Player.t) :
  length shuffled = length ps ->
  map Player.role
      (imap (fun index p => Player.set_role (shuffled !!! index) p) ps)
  = shuffled.
Proof.
  intros Hlen. apply list_eq. intros i.
  change (map Player.role) with (fmap (M:=list) Player.role).
  rewrite list_lookup_fmap, list_lookup_imap.
  destruct (ps !! i) as [p|] eqn:Hp; simpl.
  - apply lookup_lt_Some in Hp.
    destruct (lookup_lt_is_Some_2 shuffled i) as [v Hv]; [lia|].
    by rewrite (list_lookup_total_correct _ _ _ Hv).
  - apply lookup_ge_None in Hp. symmetry. apply lookup_ge_None. lia.
Qed.

Lemma ids_of_assigned (f : nat -> JsVal) (ps : list Player.t) :
  map Player.id (imap (fun index p => Player.set_role (f index) p) ps)
  = map Player.id ps /\
  map Player.name (imap (fun index p => Player.set_role (f index) p) ps)
  = map Player.name ps.
Proof.
  revert f. induction ps as [|p ps IH]; intros f; simpl; [done|].
  destruct (IH (f ∘ S)) as [H1 H2]. unfold compose in *.
  split; f_equal; done.
Qed.

(** C1: a [start_assign_roles] of the moderator with as many roles as
    there are players succeeds (given the draws of the shuffle); the shuffle
    yields a permutation of the supplied roles, the player at position i
    gets its i-th element, so the roles held afterwards are, as a multiset,
    the supplied ones, one per player, and the players are otherwise the
    same, in the same order. *)
Theorem start_assign_roles_distributes (st : State) (sid code : string)
    (room : Room.t) (payload : JsVal) (roles : list JsVal) (draws : list Q) :
  nullish payload = false ->
  field payload "roomId" = JStr code ->
  field payload "selectedRoles" = JArr roles ->
  rooms_get code (rooms st) = Some room ->
  Room.moderatorId room = Some sid ->
  length roles = length (Room.players room) ->
  Forall valid_draw draws ->
  length roles - 1 <= length draws ->
  exists shuffled rest room',
    fisher_yates (length roles - 1) draws roles = Some (shuffled, rest) /\
    start_assign_roles sid payload draws st =
      Returned {| rooms := rooms_set code room' (rooms st); io := io st |}
        (map (fun p => io_to_emit (io st) (Player.id p)
                         (receive_role (Player.role p)))
             (Room.players room')
         ++ [ socket_emit sid
                (role_summary (buildRoleSummary (Room.players room')));
              socket_emit sid (status_msg "Đã chia bài thành công!") ]) /\
    rooms_get code (rooms_set code room' (rooms st)) = Some room' /\
    shuffled ≡ₚ roles /\
    length (Room.players room') = length (Room.players room) /\
    (forall i p, Room.players room' !! i = Some p ->
                 shuffled !! i = Some (Player.role p)) /\
    map Player.role (Room.players room') ≡ₚ roles /\
    map Player.id (Room.players room') = map Player.id (Room.players room) /\
    map Player.name (Room.players room') = map Player.name (Room.players room) /\
    Room.status room' = assigned /\
    Room.moderatorId room' = Some sid.
Proof.
  intros Hn Hid Hroles Hget Hmod Hlen Hd Hdraws.
  destruct (fisher_yates_perm (length roles - 1) draws roles)
    as (shuffled & rest & Hfy & Hperm); [lia|done|done|].
  assert (Hlen' : length shuffled = length (Room.players room))
    by (rewrite <- Hlen; by apply Permutation_length).
  set (players :=
         imap (fun index p => Player.set_role (shuffled !!! index) p)
              (Room.players room)).
  exists shuffled, rest,
    (Room.set_status assigned (Room.set_players players room)).
  split; [done|]. split; [|split; [|split; [|split; [|split]]]].
  - unfold start_assign_roles. rewrite Hn, Hid, Hroles. simpl.
    rewrite Hget, Hmod. rewrite decide_False by (intros H; by apply H).
    rewrite Hlen, Z.eqb_refl. simpl. rewrite <- Hlen, Hfy. reflexivity.
  - rewrite rooms_get_set. by rewrite decide_True.
  - done.
  - simpl. subst players. by rewrite length_imap.
  - simpl. intros i p Hp.
    pose proof (roles_of_assigned shuffled (Room.players room) Hlen') as Hr.
    fold players in Hr. rewrite <- Hr.
    change (map Player.role) with (fmap (M:=list) Player.role).
    by rewrite list_lookup_fmap, Hp.
  - simpl. subst players.
    rewrite roles_of_assigned by done.
    destruct (ids_of_assigned (fun i => shuffled !!! i) (Room.players room)).
    done.
Qed.

Lemma start_assign_roles_distributes_witness :
  Forall valid_draw [1 # 3]%Q /\
  length [JStr "Wolf"; JStr "Villager"] = length (Room.players demo_room) /\
  exists shuffled room',
    after (start_assign_roles sidM
             (roles_payload "AS29" [JStr "Wolf"; JStr "Villager"])
             [1 # 3]%Q demo_state)
    = Some {| rooms := rooms_set "AS29" room' (rooms demo_state);
              io := io demo_state |} /\
    shuffled ≡ₚ [JStr "Wolf"; JStr "Villager"] /\
    map Player.role (Room.players room') ≡ₚ [JStr "Wolf"; JStr "Villager"] /\
    map Player.id (Room.players room') = [sidA; sidB].
Proof.
  assert (Hd : Forall valid_draw [1 # 3]%Q)
    by (repeat constructor; vm_compute; congruence).
  split; [exact Hd|]. split; [reflexivity|].
  destruct (start_assign_roles_distributes demo_state sidM "AS29" demo_room
              (roles_payload "AS29" [JStr "Wolf"; JStr "Villager"])
              [JStr "Wolf"; JStr "Villager"] [1 # 3]%Q
              eq_refl eq_refl eq_refl eq_refl eq_refl eq_refl Hd
              ltac:(simpl; lia))
    as (shuffled & rest & room' & _ & Hrun & _ & Hperm & _ & _ & Hroles & Hids & _).
  exists shuffled, room'. split; [by rewrite Hrun|].
  split; [exact Hperm|]. split; [exact Hroles | exact Hids].
Defined.

(** ** Disconnection ([cleanupUser]) *)

Lemma filter_keeps_all (sid : string) (ps : list Player.t) :
  length (filter (fun p => Player.id p <> sid) ps) = length ps <->
  sid ∉ map Player.id ps.
Proof.
  induction ps as [|p ps IH]; simpl.
  - split; [intros _ H; by apply elem_of_nil in H | done].
  - rewrite filter_cons. rewrite not_elem_of_cons.
    destruct (decide (Player.id p <> sid)) as [Hne|Heq]; simpl.
    + rewrite <- IH. split; [intros H; split; [done|lia] | intros [_ ->]; done].
    + apply dec_stable in Heq. split.
      * intros H.
        pose proof (length_filter (fun p => Player.id p <> sid) ps). lia.
      * intros [H _]. by destruct H.
Qed.

Lemma cleanupRoom_eq (tr : Adapter) (sid code : string) (room : Room.t) :
  cleanupRoom tr sid code room =
  (if deserted (without sid room) then None else Some (without sid room),
   leave_notices tr sid code room).
Proof.
  unfold cleanupRoom, leave_notices, deserted, without.
  destruct (decide (Room.moderatorId room = Some sid)) as [Hm|Hm]; simpl;
    rewrite (bool_decide_ext _ _ (length_zero_iff_nil _));
    (destruct (decide (sid ∈ map Player.id (Room.players room))) as [Hin|Hin];
     [ rewrite decide_True by (by rewrite filter_keeps_all; intros H; apply H)
     | rewrite decide_False
         by (intros H; apply H; by apply filter_keeps_all) ]);
    simpl; by destruct (_ && _).
Qed.

Lemma cleanupUser_get_None (tr : Adapter) (sid code : string) (rs : Registry) :
  rooms_get code rs = None ->
  rooms_get code (cleanupUser tr sid rs).1 = None.
Proof.
  unfold rooms_get. induction rs as [|[k v] rs IH]; simpl; [done|].
  destruct (decide (k = code)) as [->|Hne]; [done|]. intros H.
  destruct (cleanupRoom tr sid k v) as [kept out].
  destruct (cleanupUser tr sid rs) as [rest' out']. simpl in *.
  destruct kept; simpl; [rewrite decide_False by done|]; auto.
Qed.

Lemma rooms_get_None_keys (code : string) (rs : Registry) :
  rooms_get code rs = None <-> code ∉ map fst rs.
Proof.
  unfold rooms_get. induction rs as [|[k v] rs IH]; simpl.
  - split; [intros _ H; by apply elem_of_nil in H | done].
  - rewrite not_elem_of_cons. destruct (decide (k = code)) as [->|Hne].
    + split; [done | by intros [? _]].
    + rewrite IH. split; [done | by intros [_ ?]].
Qed.

Lemma cleanupUser_get (tr : Adapter) (sid code : string) (rs : Registry)
    (room : Room.t) :
  NoDup (map fst rs) ->
  rooms_get code rs = Some room ->
  rooms_get code (cleanupUser tr sid rs).1 =
  if deserted (without sid room) then None else Some (without sid room).
Proof.
  induction rs as [|[k v] rs IH]; simpl; [done|].
  intros Hnd Hget. apply NoDup_cons in Hnd as [Hk Hnd].
  pose proof (cleanupUser_get_None tr sid k rs) as Hnone.
  unfold rooms_get in *. simpl in Hget.
  rewrite cleanupRoom_eq.
  destruct (cleanupUser tr sid rs) as [rest' out']. simpl in *.
  destruct (decide (k = code)) as [->|Hne].
  - injection Hget as ->.
    destruct (deserted (without sid room)); simpl.
    + apply Hnone. by apply rooms_get_None_keys.
    + by rewrite decide_True.
  - destruct (deserted (without sid v)); simpl;
      [|rewrite decide_False by done]; by apply IH.
Qed.

Lemma cleanupUser_out (tr : Adapter) (sid : string) (rs : Registry) :
  (cleanupUser tr sid rs).2 =
  flat_map (fun e => leave_notices tr sid e.1 e.2) rs.
Proof.
  induction rs as [|[k v] rs IH]; simpl; [done|].
  rewrite cleanupRoom_eq.
  destruct (cleanupUser tr sid rs) as [rest' out']. simpl in *.
  by rewrite IH.
Qed.

(** C9, as the claim words it, fails: a connection that is the moderator
    of a room and also one of its players is, on disconnect, both cleared as
    moderator and removed from the players (here the room, left empty, is
    deleted, and the new count is announced). *)
Lemma disconnect_moderator_also_removed_from_players :
  reachable own_room_state /\
  (exists room,
     rooms_get "AS29" (rooms own_room_state) = Some room /\
     Room.moderatorId room = Some sidM /\
     map Player.id (Room.players room) = [sidM]) /\
  disconnect sidM own_room_state =
  Returned init
    [ {| em_to := ToGroup "AS29"; em_rcpts := [];
         em_msg := mod_status_update false |};
      {| em_to := ToGroup "AS29"; em_rcpts := [];
         em_msg := player_count_update 0 |} ].
Proof.
  split; [|split; [|reflexivity]].
  - apply (run_reachable own_room_trace init); [constructor| |reflexivity].
    unfold own_room_trace.
    repeat (apply List.Forall_cons; [solve_adm|]). apply List.Forall_nil.
  - eexists. split; [reflexivity|]. split; reflexivity.
Qed.

(** C9 (amended): on disconnect every room of the registry is visited in
    order.  If the connection was its moderator, [moderatorId] is cleared
    and the group is told so; whether it was the moderator or not, the
    connection is removed from the players if present, and then the group is
    told the new count and the moderator, if one is left, the new list; a
    room left with no player and no moderator is deleted.  Nothing else is
    emitted and no other room appears. *)
Theorem disconnect_sweeps_every_room (st : State) (sid : string) :
  NoDup (map fst (rooms st)) ->
  exists rs',
    let tr := sockets_remove sid (io st) in
    disconnect sid st =
      Returned {| rooms := rs'; io := tr |}
        (flat_map (fun e => leave_notices tr sid e.1 e.2) (rooms st)) /\
    (forall code room,
       rooms_get code (rooms st) = Some room ->
       rooms_get code rs' =
       if deserted (without sid room) then None else Some (without sid room)) /\
    (forall code,
       rooms_get code (rooms st) = None -> rooms_get code rs' = None).
Proof.
  intros Hnd.
  exists (cleanupUser (sockets_remove sid (io st)) sid (rooms st)).1.
  simpl. split; [|split].
  - unfold disconnect.
    pose proof (cleanupUser_out (sockets_remove sid (io st)) sid (rooms st)).
    destruct (cleanupUser _ sid (rooms st)) as [rs' out]. simpl in *.
    by subst.
  - intros code room. by apply cleanupUser_get.
  - intros code. apply cleanupUser_get_None.
Qed.

Lemma disconnect_sweeps_every_room_witness :
  NoDup (map fst (rooms demo_state)) /\
  exists st' out,
    disconnect sidM demo_state = Returned st' out /\
    rooms_get "AS29" (rooms st') = Some (without sidM demo_room) /\
    map em_msg out = [mod_status_update false].
Proof.
  assert (Hnd : NoDup (map fst (rooms demo_state))).
  { apply (bool_decide_unpack _). vm_compute. exact I. }
  split; [exact Hnd|].
  destruct (disconnect_sweeps_every_room demo_state sidM Hnd)
    as (rs' & Hrun & Hget & _).
  eexists _, _. split; [exact Hrun|].
  split; [exact (Hget "AS29" demo_room eq_refl) | reflexivity].
Defined.

(** ** The invariant of the reachable states *)

Lemma valid_sid_truthy (sid : string) : valid_sid sid -> truthy_str sid = true.
Proof.
  intros [Hne _]. unfold truthy_str.
  destruct (String.eqb_spec sid ""); [done|reflexivity].
Qed.

Lemma rooms_get_elem_of (k : string) (v : Room.t) (rs : Registry) :
  rooms_get k rs = Some v -> (k, v) ∈ rs.
Proof.
  unfold rooms_get. induction rs as [|[k' v'] rs IH]; simpl; [done|].
  destruct (decide (k' = k)) as [->|Hne].
  - intros [= ->]. left.
  - intros H. right. auto.
Qed.

Lemma rooms_get_Forall (P : string * Room.t -> Prop) (k : string)
    (v : Room.t) (rs : Registry) :
  Forall P rs -> rooms_get k rs = Some v -> P (k, v).
Proof.
  intros HP Hget. rewrite Forall_forall in HP.
  by apply HP, rooms_get_elem_of.
Qed.

Lemma rooms_set_Forall (P : string * Room.t -> Prop) (k : string)
    (v : Room.t) (rs : Registry) :
  Forall P rs -> P (k, v) -> Forall P (rooms_set k v rs).
Proof.
  intros HP Hv. induction rs as [|[k' v'] rs IH]; simpl.
  - by constructor.
  - apply Forall_cons in HP as [H HP].
    destruct (decide (k' = k)); constructor; auto.
Qed.

Lemma rooms_set_keys (k : string) (v : Room.t) (rs : Registry) :
  map fst (rooms_set k v rs) =
  if rooms_has k rs then map fst rs else map fst rs ++ [k].
Proof.
  induction rs as [|[k' v'] rs IH]; simpl; [done|].
  unfold rooms_has, rooms_get in *. simpl.
  destruct (decide (k' = k)) as [->|Hne]; simpl.
  - done.
  - rewrite IH. by destruct (bool_decide _).
Qed.

Lemma rooms_set_NoDup (k : string) (v : Room.t) (rs : Registry) :
  NoDup (map fst rs) -> NoDup (map fst (rooms_set k v rs)).
Proof.
  intros Hnd. rewrite rooms_set_keys.
  destruct (rooms_has k rs) eqn:Hhas; [done|].
  apply rooms_has_false, rooms_get_None_keys in Hhas.
  apply NoDup_app. split; [done|]. split; [|apply NoDup_singleton].
  intros x Hx Hx'. apply list_elem_of_singleton in Hx'. by subst.
Qed.

Lemma cleanupUser_keys (tr : Adapter) (sid : string) (rs : Registry) :
  map fst (cleanupUser tr sid rs).1 `sublist_of` map fst rs.
Proof.
  induction rs as [|[k v] rs IH]; simpl; [done|].
  destruct (cleanupRoom tr sid k v) as [kept out].
  destruct (cleanupUser tr sid rs) as [rest' out']. simpl in *.
  destruct kept; simpl; [by apply sublist_skip | by apply sublist_cons].
Qed.

Lemma Forall_sublist {A : Type} (P : A -> Prop) (l1 l2 : list A) :
  Forall P l2 -> l1 `sublist_of` l2 -> Forall P l1.
Proof.
  rewrite !Forall_forall. intros H Hsub x Hx.
  eapply H, elem_of_sublist; done.
Qed.

Lemma without_ok (sid code : string) (room : Room.t) :
  room_ok (code, room) ->
  deserted (without sid room) = false ->
  room_ok (code, without sid room).
Proof.
  intros (Hc & _ & Hnd & Hv & Hm) Hdes.
  unfold room_ok, ids in *. simpl in *.
  change (map Player.id) with (fmap (M:=list) Player.id) in *.
  split; [done|]. split; [|split; [|split]].
  - unfold deserted in Hdes. simpl in Hdes.
    apply andb_false_iff in Hdes as [Hdes|Hdes].
    + left. apply bool_decide_eq_false in Hdes.
      intros H. apply Hdes. by apply fmap_nil_inv in H.
    + right. by apply negb_false_iff in Hdes.
  - eapply sublist_NoDup; [done|]. apply fmap_sublist, sublist_filter.
  - eapply Forall_sublist; [done|]. apply fmap_sublist, sublist_filter.
  - intros m. destruct (decide _); [done|]. apply Hm.
Qed.

Lemma cleanupUser_Forall (tr : Adapter) (sid : string) (rs : Registry) :
  Forall room_ok rs -> Forall room_ok (cleanupUser tr sid rs).1.
Proof.
  induction rs as [|[k v] rs IH]; simpl; [done|].
  intros H. apply Forall_cons in H as [Hv H].
  rewrite cleanupRoom_eq. specialize (IH H).
  destruct (cleanupUser tr sid rs) as [rest' out']. simpl in *.
  destruct (deserted (without sid v)) eqn:Hdes; simpl; [done|].
  constructor; [|done]. by apply without_ok.
Qed.

Lemma rooms_set_set (k : string) (v v' : Room.t) (rs : Registry) :
  rooms_set k v' (rooms_set k v rs) = rooms_set k v' rs.
Proof.
  induction rs as [|[k0 v0] rs IH]; simpl.
  - by rewrite decide_True.
  - destruct (decide (k0 = k)) as [->|Hne]; simpl.
    + by rewrite decide_True.
    + rewrite decide_False by done. by rewrite IH.
Qed.

Lemma room_ok_same (k : string) (r r' : Room.t) :
  ids r' = ids r ->
  Room.moderatorId r' = Room.moderatorId r ->
  room_ok (k, r) -> room_ok (k, r').
Proof. unfold room_ok. simpl. by intros -> ->. Qed.

Lemma room_ok_sub (k : string) (r r' : Room.t) :
  ids r' `sublist_of` ids r ->
  Room.moderatorId r' = Room.moderatorId r ->
  truthy_id (Room.moderatorId r) = true ->
  room_ok (k, r) -> room_ok (k, r').
Proof.
  unfold room_ok. simpl. intros Hsub -> Ht (Hc & _ & Hnd & Hv & Hm).
  split; [done|]. split; [by right|].
  split; [by eapply sublist_NoDup|]. split; [by eapply Forall_sublist|done].
Qed.

Lemma socket_join_ok (sid g : string) (tr : Adapter) :
  String.length g = 4 -> Forall conn_ok tr -> Forall conn_ok (socket_join sid g tr).
Proof.
  intros Hg H. unfold socket_join. apply Forall_fmap.
  eapply Forall_impl; [done|]. intros [c gs] [Hc Hgs]. simpl.
  destruct (decide (c = sid)); [|done]. split; [done|]. simpl.
  unfold add_group. destruct (decide (g ∈ gs)); [done|].
  apply Forall_app. split; [done|]. by constructor.
Qed.

Lemma socket_leave_ok (sid g : string) (tr : Adapter) :
  Forall conn_ok tr -> Forall conn_ok (socket_leave sid g tr).
Proof.
  intros H. unfold socket_leave. apply Forall_fmap.
  eapply Forall_impl; [done|]. intros [c gs] [Hc Hgs]. simpl.
  destruct (decide (c = sid)); [|done]. split; [done|]. simpl.
  eapply Forall_sublist; [done|]. apply sublist_filter.
Qed.

Lemma sockets_remove_ok (sid : string) (tr : Adapter) :
  Forall conn_ok tr -> Forall conn_ok (sockets_remove sid tr).
Proof.
  intros H. eapply Forall_sublist; [done|]. apply sublist_filter.
Qed.

Lemma moderator_guard (sid : string) (room : Room.t) :
  ~ Some sid <> Room.moderatorId room -> Room.moderatorId room = Some sid.
Proof. intros H. symmetry. by apply dec_stable. Qed.

(** Every handler keeps the invariant.  The handlers are taken one by
    one, for a caller [sid] with a transport identifier, from a state [st]
    in which the invariant holds. *)
Section Preservation.

Context (sid : string) (st st' : State).
Hypothesis Hinv : invariant st.
Hypothesis Hsid : valid_sid sid.

Lemma connection_invariant :
  after (connection sid st) = Some st' -> invariant st'.
Proof.
  destruct Hinv as (Hnd & Hrs & Hio). intros [= <-].
  split; [done|]. split; [done|]. simpl.
  apply Forall_app. split; [done|]. constructor; [|done].
  split; [done|constructor].
Qed.

Lemma create_room_invariant (draws : list Q) :
  Forall valid_draw draws ->
  after (create_room sid draws st) = Some st' -> invariant st'.
Proof.
  destruct Hinv as (Hnd & Hrs & Hio). intros Hd. unfold create_room.
  destruct (generateRoomCode (rooms st) draws) as [[code rest]|] eqn:Hgen;
    [|discriminate].
  destruct (generateRoomCode_fresh _ _ _ _ Hd Hgen) as [Hlen Hfree].
  unfold getRoom. rewrite Hfree. simpl. intros [= <-].
  rewrite rooms_set_set. split; [|split]; simpl.
  - by apply rooms_set_NoDup.
  - apply rooms_set_Forall; [done|].
    split; [done|]. split; [right; simpl; by apply valid_sid_truthy|].
    split; [constructor|]. split; [constructor|].
    simpl. by intros m [= <-].
  - by apply socket_join_ok.
Qed.

Lemma join_room_invariant (payload : JsVal) :
  after (join_room sid payload st) = Some st' -> invariant st'.
Proof.
  destruct Hinv as (Hnd & Hrs & Hio). unfold join_room.
  destruct (nullish payload); [by intros [= <-]|].
  destruct (field payload "roomId"); try by intros [= <-].
  destruct (rooms_get _ (rooms st)) as [room|] eqn:Hget; [|by intros [= <-]].
  pose proof (rooms_get_Forall _ _ _ _ Hrs Hget) as Hok.
  simpl. intros [= <-]. split; [|split]; simpl.
  - by apply rooms_set_NoDup.
  - apply rooms_set_Forall; [done|].
    destruct (list_find _ (Room.players room)) as [[i q]|] eqn:Hfind.
    + by rewrite room_eta.
    + apply list_find_None in Hfind.
      destruct Hok as (Hc & _ & Hnd' & Hv & Hm).
      unfold room_ok, ids in *. simpl in *.
      rewrite map_app. simpl.
      split; [done|].
      split; [left; intros H; by apply app_eq_nil in H as [_ [=]]|].
      split; [|split; [|done]].
      * apply NoDup_app. split; [done|]. split; [|apply NoDup_singleton].
        intros x Hx Hx'. apply list_elem_of_singleton in Hx' as ->.
        change (map Player.id) with (fmap (M:=list) Player.id) in Hx.
        apply list_elem_of_fmap in Hx as (p & Hp & Hin).
        rewrite Forall_forall in Hfind. by apply (Hfind p).
      * apply Forall_app. split; [done|]. by constructor.
  - apply socket_join_ok; [|done]. by destruct Hok.
Qed.

Lemma start_assign_roles_invariant (payload : JsVal) (draws : list Q) :
  after (start_assign_roles sid payload draws st) = Some st' -> invariant st'.
Proof.
  destruct Hinv as (Hnd & Hrs & Hio). unfold start_assign_roles.
  destruct (nullish payload); [by intros [= <-]|].
  destruct (lookup_room _ _) as [[code room]|] eqn:Hl; [|by intros [= <-]].
  apply lookup_room_Some in Hl as [_ Hget].
  destruct (decide _); [by intros [= <-]|].
  destruct (js_length _); [|by intros [= <-]].
  destruct (negb _); [by intros [= <-]|].
  destruct (js_spread _) as [roles|]; [|by intros [= <-]].
  destruct (fisher_yates _ _ _) as [[shuffled rest]|]; [|discriminate].
  simpl. intros [= <-]. split; [|split]; simpl; [| |done].
  - by apply rooms_set_NoDup.
  - apply rooms_set_Forall; [done|].
    eapply room_ok_same; [| |by eapply rooms_get_Forall].
    + unfold ids. simpl. apply ids_of_assigned.
    + done.
Qed.

Lemma reset_room_invariant (payload : JsVal) :
  after (reset_room sid payload st) = Some st' -> invariant st'.
Proof.
  destruct Hinv as (Hnd & Hrs & Hio). unfold reset_room.
  destruct (nullish payload); [by intros [= <-]|].
  destruct (lookup_room _ _) as [[code room]|] eqn:Hl; [|by intros [= <-]].
  apply lookup_room_Some in Hl as [_ Hget].
  destruct (decide _); [by intros [= <-]|].
  simpl. intros [= <-]. split; [|split]; simpl; [| |done].
  - by apply rooms_set_NoDup.
  - apply rooms_set_Forall; [done|].
    eapply room_ok_same; [| |by eapply rooms_get_Forall].
    + unfold ids. simpl. rewrite map_map. done.
    + done.
Qed.

Lemma kick_player_invariant (payload : JsVal) :
  after (kick_player sid payload st) = Some st' -> invariant st'.
Proof.
  destruct Hinv as (Hnd & Hrs & Hio). unfold kick_player.
  destruct (nullish payload); [by intros [= <-]|].
  destruct (lookup_room _ _) as [[code room]|] eqn:Hl; [|by intros [= <-]].
  apply lookup_room_Some in Hl as [_ Hget].
  destruct (decide _) as [|Hmod]; [by intros [= <-]|].
  apply moderator_guard in Hmod.
  assert (Hok : room_ok (code, Room.set_players
            (filter (fun p => Some (Player.id p) <> as_string (field payload "playerId"))
                    (Room.players room)) room)).
  { eapply room_ok_sub; [| | |by eapply rooms_get_Forall].
    - unfold ids. simpl. apply fmap_sublist, sublist_filter.
    - done.
    - rewrite Hmod. simpl. by apply valid_sid_truthy. }
  destruct (as_string _) as [pid|]; [destruct (sockets_has pid (io st))|];
    simpl; intros [= <-]; (split; [|split]); simpl;
    try (by apply rooms_set_NoDup); try (by apply rooms_set_Forall);
    try done.
  by apply socket_leave_ok.
Qed.

Lemma disconnect_invariant :
  after (disconnect sid st) = Some st' -> invariant st'.
Proof.
  destruct Hinv as (Hnd & Hrs & Hio). unfold disconnect.
  pose proof (cleanupUser_keys (sockets_remove sid (io st)) sid (rooms st)) as Hk.
  pose proof (cleanupUser_Forall (sockets_remove sid (io st)) sid (rooms st) Hrs)
    as Hf.
  destruct (cleanupUser _ sid (rooms st)) as [rs out]. simpl in *.
  intros [= <-]. split; [|split]; simpl.
  - by eapply sublist_NoDup.
  - done.
  - by apply sockets_remove_ok.
Qed.

End Preservation.

Lemma handle_invariant (sid : string) (ev : Event) (st st' : State) :
  invariant st -> admissible sid ev ->
  after (handle sid ev st) = Some st' -> invariant st'.
Proof.
  intros Hinv [Hsid Hd]. destruct ev; simpl in *.
  - by apply connection_invariant.
  - by apply create_room_invariant.
  - by apply join_room_invariant.
  - by apply start_assign_roles_invariant.
  - by apply reset_room_invariant.
  - by apply kick_player_invariant.
  - by apply disconnect_invariant.
Qed.

Lemma reachable_invariant (st : State) : reachable st -> invariant st.
Proof.
  induction 1 as [|st sid ev st' _ IH Hadm Hstep].
  - split; [constructor|]. split; constructor.
  - by eapply handle_invariant.
Qed.

(** ** Rooms never linger empty and unmoderated *)

Lemma room_ok_not_deserted (e : string * Room.t) :
  room_ok e -> Room.players e.2 <> [] \/ is_Some (Room.moderatorId e.2).
Proof.
  intros (_ & [H|H] & _).
  - left. unfold ids in H. intros Hnil. by rewrite Hnil in H.
  - right. destruct (Room.moderatorId e.2); [eauto|discriminate].
Qed.

(** C4: after any event has been handled, every room the registry
    resolves has a player or a moderator; and when the connection that
    disconnects is the last player of a room without moderator, the code of
    that room resolves to nothing afterwards. *)
Theorem no_deserted_room_lingers (st : State) (sid : string) (ev : Event)
    (st' : State) :
  reachable st ->
  admissible sid ev ->
  after (handle sid ev st) = Some st' ->
  (forall code room,
     (code, room) ∈ rooms st' ->
     Room.players room <> [] \/ is_Some (Room.moderatorId room)) /\
  (forall code room,
     ev = EDisconnect ->
     rooms_get code (rooms st) = Some room ->
     Room.moderatorId room = None ->
     Forall (fun p => Player.id p = sid) (Room.players room) ->
     rooms_get code (rooms st') = None).
Proof.
  intros Hst Hadm Hstep.
  pose proof (reachable_invariant st Hst) as (Hnd & _ & _).
  assert (Hst' : reachable st') by (by eapply reach_step).
  apply reachable_invariant in Hst' as (_ & Hrs & _).
  split.
  - intros code room Hin. rewrite Forall_forall in Hrs.
    by apply (room_ok_not_deserted (code, room)), Hrs.
  - intros code room -> Hget Hmod Hall. simpl in Hstep.
    unfold disconnect in Hstep.
    pose proof (cleanupUser_get (sockets_remove sid (io st)) sid code
                  (rooms st) room Hnd Hget) as Hres.
    destruct (cleanupUser _ sid (rooms st)) as [rs' out]. simpl in *.
    injection Hstep as <-. simpl. rewrite Hres.
    assert (Hdes : deserted (without sid room) = true); [|by rewrite Hdes].
    unfold deserted, without. simpl. rewrite Hmod. simpl.
    rewrite andb_true_r. apply bool_decide_eq_true.
    clear -Hall. induction Hall as [|p ps Hp _ IH]; [done|].
    rewrite filter_cons. by rewrite decide_False by (intros H; by apply H).
Qed.

Lemma no_deserted_room_lingers_witness :
  admissible sidA EDisconnect /\
  exists st',
    after (handle sidA EDisconnect demo_state) = Some st' /\
    forall code room,
      (code, room) ∈ rooms st' ->
      Room.players room <> [] \/ is_Some (Room.moderatorId room).
Proof.
  assert (Ha : admissible sidA EDisconnect).
  { split; [split; [discriminate | vm_compute; lia] | constructor]. }
  split; [exact Ha|]. eexists. split; [reflexivity|].
  exact (proj1 (no_deserted_room_lingers demo_state sidA EDisconnect _
                  demo_reachable Ha eq_refl)).
Defined.

(** ** No connection is listed twice in a room *)

Lemma filter_absent (sid : string) (ps : list Player.t) :
  sid ∉ map Player.id ps -> filter (fun p => Player.id p = sid) ps = [].
Proof.
  induction ps as [|p ps IH]; simpl; intros H; [done|].
  apply not_elem_of_cons in H as [H1 H2]. rewrite filter_cons.
  rewrite decide_False by congruence. by apply IH.
Qed.

Lemma count_one (sid : string) (ps : list Player.t) :
  NoDup (map Player.id ps) ->
  sid ∈ map Player.id ps ->
  length (filter (fun p => Player.id p = sid) ps) = 1.
Proof.
  induction ps as [|p ps IH]; simpl; intros Hnd Hin.
  - by apply elem_of_nil in Hin.
  - apply NoDup_cons in Hnd as [Hp Hnd]. rewrite filter_cons.
    destruct (decide (Player.id p = sid)) as [Heq|Hne]; simpl.
    + rewrite filter_absent; [done|]. by rewrite <- Heq.
    + apply elem_of_cons in Hin as [Hin|Hin]; [congruence|]. by apply IH.
Qed.

Lemma join_room_member (sid s : string) (payload : JsVal) (st : State)
    (room : Room.t) :
  nullish payload = false ->
  field payload "roomId" = JStr s ->
  rooms_get (trim (toUpperCase s)) (rooms st) = Some room ->
  exists st1 out room1,
    join_room sid payload st = Returned st1 out /\
    rooms_get (trim (toUpperCase s)) (rooms st1) = Some room1 /\
    sid ∈ ids room1.
Proof.
  intros Hn Hid Hget. unfold join_room.
  rewrite Hn, Hid. cbv beta iota zeta. rewrite Hget.
  eexists _, _, _. split; [reflexivity|]. simpl.
  rewrite rooms_get_set, decide_True by done. split; [reflexivity|].
  unfold ids. simpl.
  change (map Player.id) with (fmap (M:=list) Player.id).
  destruct (list_find _ (Room.players room)) as [[i q]|] eqn:Hfind.
  - apply list_find_Some in Hfind as (Hq & Hqid & _).
    apply list_elem_of_fmap. exists q. split; [done|].
    by eapply list_elem_of_lookup_2.
  - rewrite fmap_app. apply elem_of_app. right. simpl. left.
Qed.

(** C5: in every reachable state the players of a room carry pairwise
    distinct connection identifiers; and two [join_room] of one connection
    for the same room leave exactly one entry with its identifier. *)
Theorem players_ids_unique (st : State) :
  reachable st ->
  (forall code room,
     rooms_get code (rooms st) = Some room ->
     NoDup (map Player.id (Room.players room))) /\
  (forall sid s payload1 payload2 room,
     valid_sid sid ->
     nullish payload1 = false -> field payload1 "roomId" = JStr s ->
     nullish payload2 = false -> field payload2 "roomId" = JStr s ->
     rooms_get (trim (toUpperCase s)) (rooms st) = Some room ->
     exists st1 out1 st2 out2 room2,
       join_room sid payload1 st = Returned st1 out1 /\
       join_room sid payload2 st1 = Returned st2 out2 /\
       rooms_get (trim (toUpperCase s)) (rooms st2) = Some room2 /\
       length (filter (fun p => Player.id p = sid) (Room.players room2)) = 1).
Proof.
  intros Hst. split.
  - intros code room Hget.
    apply reachable_invariant in Hst as (_ & Hrs & _).
    by destruct (rooms_get_Forall room_ok _ _ _ Hrs Hget) as (_ & _ & ? & _).
  - intros sid s payload1 payload2 room Hsid Hn1 Hid1 Hn2 Hid2 Hget.
    destruct (join_room_member sid s payload1 st room Hn1 Hid1 Hget)
      as (st1 & out1 & room1 & Hrun1 & Hget1 & Hin1).
    assert (Hst1 : reachable st1).
    { apply (reach_step st sid (EJoinRoom payload1)); [done| |].
      - split; [done|constructor].
      - simpl. by rewrite Hrun1. }
    apply reachable_invariant in Hst1 as (_ & Hrs1 & _).
    destruct (rooms_get_Forall room_ok _ _ _ Hrs1 Hget1) as (_ & _ & Hnd1 & _).
    unfold ids in Hin1.
    change (map Player.id) with (fmap (M:=list) Player.id) in Hin1.
    destruct (proj1 (list_elem_of_fmap _ _ _) Hin1) as (p & Hp & Hpin).
    pose proof (join_room_again st1 sid s payload2 room1 p
                  Hn2 Hid2 Hget1 Hpin (eq_sym Hp)) as Hrun2.
    simpl in Hrun2.
    eexists st1, out1, _, _, room1. split; [done|]. split; [exact Hrun2|].
    split; [done|]. by apply count_one.
Qed.

Lemma players_ids_unique_witness :
  reachable demo_state /\
  NoDup (map Player.id (Room.players demo_room)).
Proof.
  split; [exact demo_reachable|].
  exact (proj1 (players_ids_unique demo_state demo_reachable)
           "AS29" demo_room eq_refl).
Defined.

(** ** Failure containment *)

Lemma fisher_yates_is_Some (i : nat) (draws : list Q) (a : list JsVal) :
  i <= length draws -> is_Some (fisher_yates i draws a).
Proof.
  revert draws a. induction i as [|i IH]; intros draws a Hlen; simpl.
  - eauto.
  - destruct draws as [|r rest]; simpl in Hlen; [lia|]. apply IH. lia.
Qed.


Lemma handle_threw (st st' : State) (sid : string) (ev : Event)
    (out : list Emission) :
  handle sid ev st = Threw st' out -> st' = st /\ out = [].
Proof.
  destruct ev as [|draws|payload|payload draws|payload|payload|]; simpl.
  - discriminate.
  - unfold create_room. repeat case_match; discriminate.
  - unfold join_room. repeat case_match; intros [= <- <-]; done.
  - unfold start_assign_roles.
    repeat case_match; try discriminate; intros [= <- <-]; done.
  - unfold reset_room.
    repeat case_match; try discriminate; intros [= <- <-]; done.
  - unfold kick_player.
    repeat case_match; try discriminate; intros [= <- <-]; done.
  - unfold disconnect. repeat case_match; discriminate.
Qed.

Lemma filter_all (sid : string) (ps : list Player.t) :
  sid ∉ map Player.id ps -> filter (fun p => Player.id p <> sid) ps = ps.
Proof.
  induction ps as [|p ps IH]; simpl; intros H; [done|].
  apply not_elem_of_cons in H as [H1 H2]. rewrite filter_cons.
  rewrite decide_True by congruence. by rewrite IH.
Qed.

Lemma without_uninvolved (sid : string) (room : Room.t) :
  Room.moderatorId room <> Some sid -> sid ∉ ids room ->
  without sid room = room.
Proof.
  intros Hm Hp. unfold without. rewrite decide_False by done.
  rewrite filter_all by done. by destruct room.
Qed.


Lemma reachable_returned (st : State) :
  reachable st ->
  st = init \/
  exists st0 sid ev out,
    reachable st0 /\ admissible sid ev /\ handle sid ev st0 = Returned st out.
Proof.
  induction 1 as [|st sid ev st' Hst IH Hadm Hstep]; [by left|].
  destruct (handle sid ev st) as [st1 out|st1 out|] eqn:Hh; simpl in Hstep;
    [|injection Hstep as <-|discriminate].
  - injection Hstep as <-. right. eauto 8.
  - apply handle_threw in Hh as [-> _]. exact IH.
Qed.

Lemma create_room_full_registry (st : State) (sid : string) (draws : list Q) :
  (forall code, is_code code -> is_Some (rooms_get code (rooms st))) ->
  Forall valid_draw draws ->
  handle sid (ECreateRoom draws) st = Starved.
Proof.
  intros Hfull Hd. simpl. unfold create_room.
  destruct (generateRoomCode (rooms st) draws) as [[code rest]|] eqn:Hgen;
    [|done].
  pose proof (generateRoomCode_attempt _ _ _ _ Hgen) as [Hin Hfree].
  pose proof (attempts_symbols draws Hd) as Hsym.
  rewrite Forall_forall in Hsym.
  destruct (Hfull code (Hsym code Hin)) as [room Hroom]. congruence.
Qed.







(** ** Privacy of the roles *)

Lemma members_self (tr : Adapter) (g r : string) :
  Forall conn_ok tr -> String.length g <> 4 -> r ∈ members tr g -> r = g.
Proof.
  unfold members. intros Hok Hg Hr.
  change (map fst) with (fmap (M:=list) (@fst string (list string))) in Hr.
  apply list_elem_of_fmap in Hr as ([c gs] & -> & Hin).
  apply list_elem_of_filter in Hin as [Hc Hin]. simpl in *.
  destruct Hc as [->|Hc]; [done|].
  rewrite Forall_forall in Hok. destruct (Hok _ Hin) as [_ Hgs].
  rewrite Forall_forall in Hgs. by apply Hgs in Hc.
Qed.

Lemma elem_of_rooms_get (k : string) (v : Room.t) (rs : Registry) :
  NoDup (map fst rs) -> (k, v) ∈ rs -> rooms_get k rs = Some v.
Proof.
  unfold rooms_get. induction rs as [|[k' v'] rs IH]; simpl; intros Hnd Hin.
  - by apply elem_of_nil in Hin.
  - apply NoDup_cons in Hnd as [Hk Hnd].
    apply elem_of_cons in Hin as [[= -> ->]|Hin].
    + by rewrite decide_True.
    + destruct (decide (k' = k)) as [->|]; [|by apply IH].
      destruct Hk.
      change (map fst) with (fmap (M:=list) (@fst string Room.t)).
      apply list_elem_of_fmap. by exists (k, v).
Qed.

Lemma to_moderator_private (rs : Registry) (tr : Adapter) (code : string)
    (room : Room.t) :
  Forall conn_ok tr -> room_ok (code, room) ->
  rooms_get code rs = Some room ->
  Forall (private rs)
         (to_moderator tr room (player_list_update (Room.players room))).
Proof.
  intros Htr (_ & _ & _ & _ & Hm) Hget. unfold to_moderator. simpl in Hm.
  destruct (Room.moderatorId room) as [mid|] eqn:Hmid; [|constructor].
  destruct (truthy_str mid); constructor; [|constructor].
  exists code, room. split; [done|]. split; [done|].
  intros r Hr. simpl in Hr. apply members_self in Hr as ->; [done..|].
  by destruct (Hm mid).
Qed.

Lemma to_moderator_deserted (tr : Adapter) (room : Room.t) (m : Msg) :
  deserted room = true -> to_moderator tr room m = [].
Proof.
  unfold deserted, to_moderator. intros H.
  apply andb_true_iff in H as [_ H]. apply negb_true_iff in H.
  destruct (Room.moderatorId room) as [mid|]; [|done].
  simpl in H. by rewrite H.
Qed.

Lemma leave_notices_private (rs' : Registry) (tr : Adapter)
    (sid code : string) (room : Room.t) :
  Forall conn_ok tr -> room_ok (code, room) ->
  rooms_get code rs' =
    (if deserted (without sid room) then None else Some (without sid room)) ->
  Forall (private rs') (leave_notices tr sid code room).
Proof.
  intros Htr Hok Hget. unfold leave_notices. apply Forall_app. split.
  - destruct (decide _); repeat constructor.
  - destruct (decide (sid ∈ _)); [|constructor].
    constructor; [exact I|].
    destruct (deserted (without sid room)) eqn:Hdes.
    + rewrite to_moderator_deserted by done. constructor.
    + apply (to_moderator_private rs' tr code); [done| |done].
      by apply without_ok.
Qed.

Lemma handle_private (st st' : State) (sid : string) (ev : Event) :
  invariant st -> admissible sid ev ->
  after (handle sid ev st) = Some st' ->
  Forall (private (rooms st')) (emitted (handle sid ev st)).
Proof.
  intros Hinv Hadm Hstep.
  pose proof (handle_invariant sid ev st st' Hinv Hadm Hstep)
    as (Hnd' & Hrs' & Hio').
  destruct Hinv as (Hnd & Hrs & Hio). destruct Hadm as [Hsid Hd].
  destruct ev as [|draws|payload|payload draws|payload|payload|];
    simpl in *.
  - constructor.
  - unfold create_room in *.
    destruct (generateRoomCode _ _) as [[code rest]|] eqn:Hgen; [|discriminate].
    apply generateRoomCode_attempt in Hgen as [_ Hfree].
    unfold getRoom in *. rewrite Hfree in *. simpl in *.
    injection Hstep as <-. simpl.
    repeat constructor.
    exists code, (Room.set_moderatorId (Some sid) fresh_room).
    rewrite rooms_get_set, decide_True by done. split; [done|].
    split; [done|]. simpl. intros r Hr.
    by apply list_elem_of_singleton in Hr as ->.
  - unfold join_room in *.
    destruct (nullish payload); [constructor|].
    destruct (field payload "roomId") as [| | | |s| |]; try constructor.
    destruct (rooms_get (trim (toUpperCase s)) (rooms st)) as [room|] eqn:Hget;
      [|repeat constructor].
    simpl in *. injection Hstep as <-. simpl in *.
    constructor; [exact I|]. constructor; [exact I|].
    apply Forall_app. split; [|repeat constructor].
    match goal with
    | |- Forall _ (to_moderator _ ?r _) =>
        apply (to_moderator_private _ _ (trim (toUpperCase s)) r); [done| |]
    end.
    + eapply rooms_get_Forall; [done|].
      rewrite rooms_get_set. by rewrite decide_True.
    + rewrite rooms_get_set. by rewrite decide_True.
  - unfold start_assign_roles in *.
    destruct (nullish payload); [constructor|].
    destruct (lookup_room _ _) as [[code room]|] eqn:Hl; [|constructor].
    destruct (decide _) as [|Hmod]; [constructor|].
    apply moderator_guard in Hmod.
    destruct (js_length _); [|constructor].
    destruct (negb _); [repeat constructor|].
    destruct (js_spread _) as [roles|]; [|constructor].
    destruct (fisher_yates _ _ _) as [[shuffled rest]|]; [|discriminate].
    simpl in *. injection Hstep as <-. simpl in *.
    set (players := imap _ (Room.players room)) in *.
    set (room' := Room.set_status assigned (Room.set_players players room)) in *.
    assert (Hget' : rooms_get code (rooms_set code room' (rooms st)) = Some room')
      by (rewrite rooms_get_set; by rewrite decide_True).
    pose proof (rooms_get_Forall room_ok _ _ _ Hrs' Hget')
      as (_ & _ & _ & Hv & _).
    apply Forall_app. split.
    + apply Forall_forall. intros e He.
      change (map ?f players) with (fmap (M:=list) f players) in He.
      apply list_elem_of_fmap in He as (p & -> & Hp).
      exists code, room', p. split; [done|]. split; [done|].
      split; [done|]. split; [done|]. simpl. intros r Hr.
      apply members_self in Hr; [done|done|].
      rewrite Forall_forall in Hv.
      assert (Hpv : valid_sid (Player.id p)).
      { apply Hv. unfold ids. simpl.
        change (map Player.id) with (fmap (M:=list) Player.id).
        apply list_elem_of_fmap. eauto. }
      by destruct Hpv.
    + constructor; [|repeat constructor].
      exists code, room'. split; [done|]. split; [done|].
      simpl. intros r Hr. by apply list_elem_of_singleton in Hr as ->.
  - unfold reset_room in *.
    destruct (nullish payload); [constructor|].
    destruct (lookup_room _ _) as [[code room]|] eqn:Hl; [|constructor].
    destruct (decide _) as [|Hmod]; [constructor|].
    apply moderator_guard in Hmod.
    simpl in *. injection Hstep as <-. simpl in *.
    constructor; [exact I|]. constructor; [|repeat constructor].
    eexists code, _. rewrite rooms_get_set, decide_True by done.
    split; [done|]. split; [done|].
    simpl. intros r Hr. by apply list_elem_of_singleton in Hr as ->.
  - unfold kick_player in *.
    destruct (nullish payload); [constructor|].
    destruct (lookup_room _ _) as [[code room]|] eqn:Hl; [|constructor].
    destruct (decide _) as [|Hmod]; [constructor|].
    apply moderator_guard in Hmod.
    assert (Hlist : forall rs' ps,
      rooms_get code rs' = Some (Room.set_players ps room) ->
      private rs' (io_to_emit (io st) sid (player_list_update ps))).
    { intros rs' ps Hget'. eexists code, _. split; [done|]. split; [done|].
      simpl. intros r Hr. apply members_self in Hr as ->; [done|done|].
      by destruct Hsid. }
    destruct (as_string _) as [pid|]; [destruct (sockets_has _ _)|];
      simpl in *; injection Hstep as <-; simpl in *;
      (constructor; [exact I|]);
      (constructor;
       [apply Hlist; rewrite rooms_get_set; by rewrite decide_True
       |repeat constructor]).
  - unfold disconnect in *.
    pose proof (cleanupUser_out (sockets_remove sid (io st)) sid (rooms st))
      as Hout.
    pose proof (fun code room =>
                  cleanupUser_get (sockets_remove sid (io st)) sid code
                    (rooms st) room Hnd) as Hget.
    destruct (cleanupUser _ sid (rooms st)) as [rs' out]. simpl in *.
    injection Hstep as <-. simpl in *. subst out.
    apply Forall_flat_map, Forall_forall. intros [code room] Hin.
    simpl. apply leave_notices_private; [done| |].
    + rewrite Forall_forall in Hrs. by apply Hrs.
    + apply Hget. by apply elem_of_rooms_get.
Qed.

Lemma private_carries (rs : Registry) (e : Emission) (r : string) (v : JsVal) :
  private rs e -> r ∈ em_rcpts e -> carries (em_msg e) v ->
  exists code room,
    rooms_get code rs = Some room /\
    (Room.moderatorId room = Some r \/
     exists p, p ∈ Room.players room /\ Player.id p = r /\ Player.role p = v).
Proof.
  unfold private, carries. destruct (em_msg e); try done.
  - intros (code & room & Hget & _ & Hm) Hr _. exists code, room. auto.
  - intros (code & room & p & Hget & Hp & Hrole & _ & Hto) Hr <-.
    exists code, room. split; [done|]. right. exists p.
    split; [done|]. split; [|done]. symmetry. by apply Hto.
  - intros (code & room & Hget & _ & Hm) Hr _. exists code, room. auto.
Qed.

(** C7: whatever the events handled so far, every message emitted when
    the next one is handled keeps the roles private: a [receive_role] is
    addressed to the connection identifier of a player of a room, carries
    that player's role and reaches that connection only; a [role_summary]
    or a [player_list_update] reaches the moderator of the room it
    describes and nobody else; the other messages carry no role.  Hence a
    role carried by a message that reaches a connection is the role of that
    connection in some room, or comes from a room it moderates. *)
Theorem roles_stay_private (st st' : State) (sid : string) (ev : Event) :
  reachable st ->
  admissible sid ev ->
  after (handle sid ev st) = Some st' ->
  Forall (private (rooms st')) (emitted (handle sid ev st)) /\
  (forall e r v,
     e ∈ emitted (handle sid ev st) -> r ∈ em_rcpts e ->
     carries (em_msg e) v ->
     exists code room,
       rooms_get code (rooms st') = Some room /\
       (Room.moderatorId room = Some r \/
        exists p, p ∈ Room.players room /\ Player.id p = r /\
                  Player.role p = v)).
Proof.
  intros Hst Hadm Hstep.
  assert (Hp : Forall (private (rooms st')) (emitted (handle sid ev st)))
    by (apply handle_private; [by apply reachable_invariant|done..]).
  split; [done|]. intros e r v He Hr Hv.
  rewrite Forall_forall in Hp. by apply (private_carries _ e r v (Hp e He)).
Qed.

Lemma roles_stay_private_witness :
  admissible sidM
    (EStartAssignRoles (roles_payload "AS29" [JStr "Wolf"; JStr "Villager"])
                       [1 # 3]%Q) /\
  exists st',
    after (handle sidM
             (EStartAssignRoles
                (roles_payload "AS29" [JStr "Wolf"; JStr "Villager"])
                [1 # 3]%Q) demo_state) = Some st' /\
    Forall (private (rooms st'))
      (emitted (handle sidM
                  (EStartAssignRoles
                     (roles_payload "AS29" [JStr "Wolf"; JStr "Villager"])
                     [1 # 3]%Q) demo_state)).
Proof.
  assert (Ha : admissible sidM
                 (EStartAssignRoles
                    (roles_payload "AS29" [JStr "Wolf"; JStr "Villager"])
                    [1 # 3]%Q)) by solve_adm.
  split; [exact Ha|]. eexists. split; [reflexivity|].
  exact (proj1 (roles_stay_private demo_state _ sidM _ demo_reachable Ha
                  eq_refl)).
Defined.

(** * Further properties of the helpers and handlers *)

(** ** [generateRoomCode], [getRoom] and [create_room] *)

Lemma drop_four {A : Type} (n : nat) (a b c d : A) (l : list A) :
  drop (4 * S (S n)) (a :: b :: c :: d :: l) = drop (4 * S n) l.
Proof. replace (4 * S (S n)) with (S (S (S (S (4 * S n))))) by lia. done. Qed.

(** X1: the code [generateRoomCode] returns is the first of the codes it
    tries that is free in the registry; every earlier try was taken, and
    four draws were consumed per try. *)
Theorem generateRoomCode_first_free (rs : Registry) (draws : list Q)
    (code : string) (rest : list Q) :
  generateRoomCode rs draws = Some (code, rest) ->
  exists k,
    attempts draws !! k = Some code /\
    rooms_get code rs = None /\
    (forall j c, j < k -> attempts draws !! j = Some c ->
                 is_Some (rooms_get c rs)) /\
    rest = drop (4 * S k) draws.
Proof.
  induction draws as [| | | |r0 r1 r2 r3 tl IH] using draws_ind4; simpl;
    try discriminate.
  destruct (rooms_has _ rs) eqn:Hhas.
  - intros H. destruct (IH H) as (k & Hk & Hfree & Hbefore & Hrest).
    exists (S k). split; [done|]. split; [done|]. split.
    + intros [|j] c Hj; simpl.
      * intros [= <-]. unfold rooms_has in Hhas.
        by apply bool_decide_eq_true in Hhas.
      * apply Hbefore. lia.
    + exact (eq_trans Hrest (eq_sym (drop_four k r0 r1 r2 r3 tl))).
  - intros [= <- <-]. exists 0. split; [done|].
    split; [by apply rooms_has_false|]. split; [intros; lia|done].
Qed.

Lemma generateRoomCode_first_free_witness :
  generateRoomCode [("AAAA", fresh_room)] [0; 0; 0; 0; 0; 0; 0; 1 # 2]%Q
    = Some ("AAAS", []) /\
  exists k,
    attempts [0; 0; 0; 0; 0; 0; 0; 1 # 2]%Q !! k = Some "AAAS" /\
    rooms_get "AAAS" [("AAAA", fresh_room)] = None /\
    (forall j c, j < k ->
                 attempts [0; 0; 0; 0; 0; 0; 0; 1 # 2]%Q !! j = Some c ->
                 is_Some (rooms_get c [("AAAA", fresh_room)])) /\
    [] = drop (4 * S k) [0; 0; 0; 0; 0; 0; 0; 1 # 2]%Q.
Proof.
  split; [reflexivity|].
  exact (generateRoomCode_first_free [("AAAA", fresh_room)]
           [0; 0; 0; 0; 0; 0; 0; 1 # 2]%Q "AAAS" [] eq_refl).
Defined.

Lemma rand_index_draw_for (j : nat) : rand_index (draw_for j) 32 = j.
Proof.
  unfold rand_index, draw_for, Qfloor, Qmult, inject_Z. simpl.
  rewrite Z.div_mul by lia. lia.
Qed.

Lemma valid_draw_for (j : nat) : j < 32 -> valid_draw (draw_for j).
Proof.
  intros Hj. unfold valid_draw, draw_for, Qle, Qlt. simpl. lia.
Qed.

Lemma elem_of_get (s : string) (a : ascii) :
  a ∈ list_ascii_of_string s ->
  exists j, j < String.length s /\ String.get j s = Some a.
Proof.
  induction s as [|c s IH]; simpl; intros H.
  - by apply elem_of_nil in H.
  - apply elem_of_cons in H as [->|H].
    + exists 0. split; [lia|done].
    + destruct (IH H) as (j & Hj & Hget). exists (S j). split; [lia|done].
Qed.

Lemma pick_any (a : ascii) :
  a ∈ list_ascii_of_string chars ->
  exists r, valid_draw r /\ pick r = String a EmptyString.
Proof.
  intros Ha. destruct (elem_of_get chars a Ha) as (j & Hj & Hget).
  exists (draw_for j). split; [by apply valid_draw_for|].
  unfold pick, charAt. change (String.length chars) with 32.
  by rewrite rand_index_draw_for, Hget.
Qed.

(** X2: every code of four alphabet symbols that is free in the registry
    can come out of [generateRoomCode]: there are draws of the unit interval
    on which it is returned at the first try. *)
Theorem generateRoomCode_any_free_code (rs : Registry) (code : string) :
  is_code code ->
  rooms_get code rs = None ->
  exists draws,
    Forall valid_draw draws /\ length draws = 4 /\
    generateRoomCode rs draws = Some (code, []).
Proof.
  intros [Hlen Hsym] Hfree.
  destruct code as [|c0 [|c1 [|c2 [|c3 [|c4 tl]]]]]; try discriminate.
  simpl in Hsym.
  destruct (pick_any c0) as (r0 & V0 & P0); [apply Hsym; left|].
  destruct (pick_any c1) as (r1 & V1 & P1); [apply Hsym; right; left|].
  destruct (pick_any c2) as (r2 & V2 & P2);
    [apply Hsym; right; right; left|].
  destruct (pick_any c3) as (r3 & V3 & P3);
    [apply Hsym; right; right; right; left|].
  exists [r0; r1; r2; r3].
  split; [repeat (apply List.Forall_cons; [done|]); apply List.Forall_nil|].
  split; [done|]. simpl. unfold code_of. simpl.
  rewrite P0, P1, P2, P3.
  change (((("" +:+ String c0 "") +:+ String c1 "") +:+ String c2 "")
          +:+ String c3 "")
    with (String c0 (String c1 (String c2 (String c3 "")))).
  by rewrite (proj2 (rooms_has_false _ _) Hfree).
Qed.

Lemma generateRoomCode_any_free_code_witness :
  is_code "WXYZ" /\
  exists draws,
    Forall valid_draw draws /\ length draws = 4 /\
    generateRoomCode (rooms demo_state) draws = Some ("WXYZ", []).
Proof.
  assert (Hc : is_code "WXYZ").
  { split; [reflexivity|]. intros a Ha.
    apply (bool_decide_unpack _).
    repeat (apply elem_of_cons in Ha as [->|Ha]; [by vm_compute|]).
    by apply elem_of_nil in Ha. }
  split; [exact Hc|].
  exact (generateRoomCode_any_free_code (rooms demo_state) "WXYZ" Hc eq_refl).
Defined.

Lemma rooms_set_fresh (k : string) (v : Room.t) (rs : Registry) :
  rooms_get k rs = None -> rooms_set k v rs = rs ++ [(k, v)].
Proof.
  unfold rooms_get. induction rs as [|[k' v'] rs IH]; simpl; [done|].
  destruct (decide (k' = k)); [done|]. intros H. by rewrite IH.
Qed.

Lemma rooms_get_app_fresh (k k' : string) (v : Room.t) (rs : Registry) :
  rooms_get k' (rs ++ [(k, v)]) =
  match rooms_get k' rs with
  | Some r => Some r
  | None => if decide (k = k') then Some v else None
  end.
Proof.
  unfold rooms_get. induction rs as [|[k0 v0] rs IH]; simpl; [done|].
  destruct (decide (k0 = k')); done.
Qed.

(** X3: [getRoom] returns the room registered under the key when there is
    one and leaves the registry alone; otherwise it registers a fresh room
    (no moderator, no players, waiting) after all other entries.  Either
    way the key then resolves to the room returned, the other keys resolve
    as before, and a second [getRoom] changes nothing more. *)
Theorem getRoom_registers_once (k : string) (rs : Registry) :
  (forall r, rooms_get k rs = Some r -> getRoom k rs = (r, rs)) /\
  (rooms_get k rs = None ->
   getRoom k rs = (fresh_room, rs ++ [(k, fresh_room)])) /\
  rooms_get k (getRoom k rs).2 = Some (getRoom k rs).1 /\
  (forall k', k' <> k -> rooms_get k' (getRoom k rs).2 = rooms_get k' rs) /\
  getRoom k (getRoom k rs).2 = getRoom k rs.
Proof.
  unfold getRoom. destruct (rooms_get k rs) as [r|] eqn:Hget; simpl.
  - split; [by intros ? [= ->]|]. split; [done|]. split; [done|].
    split; [done|]. by rewrite Hget.
  - split; [done|]. split; [by rewrite rooms_set_fresh|].
    rewrite !rooms_get_set, decide_True by done. split; [done|].
    split; [|done]. intros k' Hk. rewrite rooms_get_set.
    by rewrite decide_False.
Qed.

(** X4: [create_room] registers a new room under the generated code after
    all existing entries, with the caller as moderator, no players and
    status waiting; the code was free before, the rooms already there
    resolve as before, the caller joins the group of the code, and it
    alone is sent, in this order, [room_created], [role_assigned],
    [player_list_update] with an empty list and [init_state]. *)
Theorem create_room_opens_room (st : State) (sid : string) (draws : list Q)
    (code : string) (rest : list Q) :
  generateRoomCode (rooms st) draws = Some (code, rest) ->
  create_room sid draws st =
    Returned {| rooms := rooms st ++ [(code, opened_room sid)];
                io := socket_join sid code (io st) |}
      [ socket_emit sid (room_created code);
        socket_emit sid (role_assigned moderator None);
        socket_emit sid (player_list_update []);
        socket_emit sid (init_state true 0) ] /\
  rooms_get code (rooms st) = None /\
  rooms_get code (rooms st ++ [(code, opened_room sid)])
    = Some (opened_room sid) /\
  (forall k r, rooms_get k (rooms st) = Some r ->
               rooms_get k (rooms st ++ [(code, opened_room sid)]) = Some r).
Proof.
  intros Hgen. pose proof Hgen as Hfree.
  apply generateRoomCode_attempt in Hfree as [_ Hfree].
  split; [|split; [done|split]].
  - unfold create_room, getRoom. rewrite Hgen, Hfree. simpl.
    rewrite rooms_set_set. by rewrite rooms_set_fresh.
  - rewrite rooms_get_app_fresh, Hfree. by rewrite decide_True.
  - intros k r Hk. by rewrite rooms_get_app_fresh, Hk.
Qed.

Lemma create_room_opens_room_witness :
  generateRoomCode (rooms demo_state) [0; 0; 0; 0]%Q = Some ("AAAA", []) /\
  after (create_room sidB [0; 0; 0; 0]%Q demo_state) =
    Some {| rooms := rooms demo_state ++ [("AAAA", opened_room sidB)];
            io := socket_join sidB "AAAA" (io demo_state) |}.
Proof.
  split; [reflexivity|].
  destruct (create_room_opens_room demo_state sidB [0; 0; 0; 0]%Q "AAAA" []
              eq_refl) as [H _].
  by rewrite H.
Defined.

(** ** Where rooms come from *)

Lemma rooms_set_existing_None (code k : string) (room room' : Room.t)
    (rs : Registry) :
  rooms_get code rs = Some room -> rooms_get k rs = None ->
  rooms_get k (rooms_set code room' rs) = None.
Proof.
  intros Hc Hk. rewrite rooms_get_set.
  destruct (decide (code = k)) as [->|]; [congruence|done].
Qed.

Lemma handle_new_key (st st' : State) (sid : string) (ev : Event)
    (k : string) :
  after (handle sid ev st) = Some st' ->
  rooms_get k (rooms st) = None ->
  is_Some (rooms_get k (rooms st')) ->
  exists draws rest,
    ev = ECreateRoom draws /\
    generateRoomCode (rooms st) draws = Some (k, rest) /\
    rooms_get k (rooms st') = Some (opened_room sid).
Proof.
  intros Hstep Hk Hnew.
  assert (Hno : forall rs, rooms_get k rs = None -> rs = rooms st' -> False).
  { intros rs Hrs ->. rewrite Hrs in Hnew. by destruct Hnew. }
  destruct ev as [|draws|payload|payload draws|payload|payload|];
    simpl in Hstep.
  - injection Hstep as <-. by destruct (Hno (rooms st)).
  - unfold create_room in Hstep.
    destruct (generateRoomCode _ _) as [[c rest]|] eqn:Hgen; [|discriminate].
    pose proof (generateRoomCode_attempt _ _ _ _ Hgen) as [_ Hfree].
    unfold getRoom in Hstep. rewrite Hfree in Hstep. simpl in Hstep.
    injection Hstep as <-. simpl in *.
    rewrite rooms_set_set, rooms_get_set in *.
    destruct (decide (c = k)) as [->|]; [eauto|].
    rewrite Hk in Hnew. by destruct Hnew.
  - unfold join_room in Hstep.
    destruct (nullish payload);
      [injection Hstep as <-; by destruct (Hno (rooms st))|].
    destruct (field payload "roomId") as [| | | |s| |];
      try (injection Hstep as <-; by destruct (Hno (rooms st))).
    destruct (rooms_get (trim (toUpperCase s)) (rooms st)) eqn:Hget;
      [|injection Hstep as <-; by destruct (Hno (rooms st))].
    simpl in Hstep. injection Hstep as <-. simpl in *.
    erewrite rooms_set_existing_None in Hnew by done. by destruct Hnew.
  - unfold start_assign_roles in Hstep.
    destruct (nullish payload);
      [injection Hstep as <-; by destruct (Hno (rooms st))|].
    destruct (lookup_room _ _) as [[c r]|] eqn:Hl;
      [|injection Hstep as <-; by destruct (Hno (rooms st))].
    apply lookup_room_Some in Hl as [_ Hl].
    destruct (decide _);
      [injection Hstep as <-; by destruct (Hno (rooms st))|].
    destruct (js_length _);
      [|injection Hstep as <-; by destruct (Hno (rooms st))].
    destruct (negb _);
      [injection Hstep as <-; by destruct (Hno (rooms st))|].
    destruct (js_spread _);
      [|injection Hstep as <-; by destruct (Hno (rooms st))].
    destruct (fisher_yates _ _ _) as [[shuffled rest]|]; [|discriminate].
    simpl in Hstep. injection Hstep as <-. simpl in *.
    erewrite rooms_set_existing_None in Hnew by done. by destruct Hnew.
  - unfold reset_room in Hstep.
    destruct (nullish payload);
      [injection Hstep as <-; by destruct (Hno (rooms st))|].
    destruct (lookup_room _ _) as [[c r]|] eqn:Hl;
      [|injection Hstep as <-; by destruct (Hno (rooms st))].
    apply lookup_room_Some in Hl as [_ Hl].
    destruct (decide _);
      [injection Hstep as <-; by destruct (Hno (rooms st))|].
    simpl in Hstep. injection Hstep as <-. simpl in *.
    erewrite rooms_set_existing_None in Hnew by done. by destruct Hnew.
  - unfold kick_player in Hstep.
    destruct (nullish payload);
      [injection Hstep as <-; by destruct (Hno (rooms st))|].
    destruct (lookup_room _ _) as [[c r]|] eqn:Hl;
      [|injection Hstep as <-; by destruct (Hno (rooms st))].
    apply lookup_room_Some in Hl as [_ Hl].
    destruct (decide _);
      [injection Hstep as <-; by destruct (Hno (rooms st))|].
    destruct (as_string _) as [pid|]; [destruct (sockets_has _ _)|];
      simpl in Hstep; injection Hstep as <-; simpl in *;
      erewrite rooms_set_existing_None in Hnew by done; by destruct Hnew.
  - unfold disconnect in Hstep.
    pose proof (cleanupUser_get_None (sockets_remove sid (io st)) sid k
                  (rooms st) Hk) as Hres.
    destruct (cleanupUser _ sid (rooms st)) as [rs' out]. simpl in *.
    injection Hstep as <-. simpl in *. rewrite Hres in Hnew.
    by destruct Hnew.
Qed.

(** X5: a code that resolved to no room before an event and resolves to
    one after it was generated by [create_room] handling that very event,
    and the room is the one just opened for the caller.  No other handler
    registers a room; in particular a code supplied by a client never
    creates one. *)
Theorem only_create_room_registers (st st' : State) (sid : string)
    (ev : Event) (k : string) :
  after (handle sid ev st) = Some st' ->
  rooms_get k (rooms st) = None ->
  is_Some (rooms_get k (rooms st')) ->
  exists draws rest,
    ev = ECreateRoom draws /\
    generateRoomCode (rooms st) draws = Some (k, rest) /\
    rooms_get k (rooms st') = Some (opened_room sid).
Proof. apply handle_new_key. Qed.

Lemma only_create_room_registers_witness :
  exists st',
    after (handle sidB (ECreateRoom [0; 0; 0; 0]%Q) demo_state) = Some st' /\
    rooms_get "AAAA" (rooms demo_state) = None /\
    rooms_get "AAAA" (rooms st') = Some (opened_room sidB).
Proof.
  eexists. split; [reflexivity|]. split; [reflexivity|].
  destruct (only_create_room_registers demo_state _ sidB
              (ECreateRoom [0; 0; 0; 0]%Q) "AAAA" eq_refl eq_refl
              ltac:(vm_compute; eauto))
    as (draws & rest & _ & _ & H).
  exact H.
Defined.

Lemma reachable_codes (st : State) :
  reachable st ->
  forall k r, rooms_get k (rooms st) = Some r -> is_code k.
Proof.
  induction 1 as [|st sid ev st' _ IH [_ Hd] Hstep]; intros k r Hget.
  - discriminate.
  - destruct (rooms_get k (rooms st)) as [r0|] eqn:Hold; [by eapply IH|].
    destruct (handle_new_key st st' sid ev k Hstep Hold)
      as (draws & rest & -> & Hgen & _); [by rewrite Hget|].
    simpl in Hd. apply generateRoomCode_attempt in Hgen as [Hin _].
    pose proof (attempts_symbols draws Hd) as Hall.
    rewrite Forall_forall in Hall. by apply Hall.
Qed.

Lemma alphabet_normal :
  Forall (fun a => upper_ascii a = a /\ is_space a = false)
         (list_ascii_of_string chars).
Proof. repeat (apply List.Forall_cons; [by vm_compute|]). apply List.Forall_nil. Qed.

Lemma toUpperCase_fixed (s : string) :
  Forall (fun a => upper_ascii a = a /\ is_space a = false)
         (list_ascii_of_string s) ->
  toUpperCase s = s.
Proof.
  induction s as [|c s IH]; simpl; [done|].
  intros H. apply Forall_cons in H as [[Hc _] H]. by rewrite Hc, IH.
Qed.

Lemma trimEnd_fixed (s : string) :
  Forall (fun a => upper_ascii a = a /\ is_space a = false)
         (list_ascii_of_string s) ->
  trimEnd s = s.
Proof.
  induction s as [|c s IH]; simpl; [done|].
  intros H. apply Forall_cons in H as [[_ Hc] H]. rewrite IH by done.
  destruct s; [by rewrite Hc|done].
Qed.

Lemma code_normal (c : string) : is_code c -> trim (toUpperCase c) = c.
Proof.
  intros [_ Hsym].
  assert (H : Forall (fun a => upper_ascii a = a /\ is_space a = false)
                     (list_ascii_of_string c)).
  { apply Forall_forall. intros a Ha.
    pose proof alphabet_normal as Hn. rewrite Forall_forall in Hn.
    by apply Hn, Hsym. }
  rewrite toUpperCase_fixed by done. unfold trim.
  destruct c as [|a c]; [done|]. simpl in *.
  apply Forall_cons in H as [[Ha Hsp] H]. rewrite Hsp.
  apply (trimEnd_fixed (String a c)). simpl. by constructor.
Qed.

(** X6: every room of a reachable state is registered under a code of
    four alphabet symbols which the normalisation of [join_room]
    (upper-casing, trimming) leaves as it is; so a [join_room] carrying the
    code of a live room as it was issued always finds that room, and
    afterwards the caller is among its players. *)
Theorem live_room_joinable (st : State) (sid code : string) (room : Room.t)
    (payload : JsVal) :
  reachable st ->
  rooms_get code (rooms st) = Some room ->
  nullish payload = false ->
  field payload "roomId" = JStr code ->
  is_code code /\ trim (toUpperCase code) = code /\
  exists st' out room',
    join_room sid payload st = Returned st' out /\
    rooms_get code (rooms st') = Some room' /\
    sid ∈ ids room'.
Proof.
  intros Hst Hget Hn Hid.
  pose proof (reachable_codes st Hst code room Hget) as Hcode.
  pose proof (code_normal code Hcode) as Hnorm.
  split; [done|]. split; [done|].
  rewrite <- Hnorm in Hget.
  destruct (join_room_member sid code payload st room Hn Hid Hget)
    as (st' & out & room' & Hrun & Hget' & Hin).
  rewrite Hnorm in Hget'. eauto 6.
Qed.

Lemma live_room_joinable_witness :
  reachable demo_state /\
  is_code "AS29" /\ trim (toUpperCase "AS29") = "AS29" /\
  exists st' out room',
    join_room sidM (join_payload "AS29" JNull) demo_state = Returned st' out /\
    rooms_get "AS29" (rooms st') = Some room' /\
    sidM ∈ ids room'.
Proof.
  split; [exact demo_reachable|].
  exact (live_room_joinable demo_state sidM "AS29" demo_room
           (join_payload "AS29" JNull) demo_reachable eq_refl eq_refl eq_refl).
Defined.

(** ** A first [join_room] *)

Lemma members_after_join (sid g : string) (tr : Adapter) :
  sid ∈ map fst tr -> sid ∈ members (socket_join sid g tr) g.
Proof.
  unfold members, socket_join. intros H.
  change (sid ∈ fst <$> tr) in H.
  apply list_elem_of_fmap in H as ([c gs] & -> & Hin). simpl.
  assert (Hg : g ∈ add_group g gs).
  { unfold add_group. destruct (decide (g ∈ gs)); [done|].
    apply elem_of_app. right. left. }
  match goal with
  | |- _ ∈ map fst (filter ?P (map ?f tr)) =>
      change (c ∈ fst <$> filter P (f <$> tr))
  end.
  apply list_elem_of_fmap. exists (c, add_group g gs). split; [done|].
  apply list_elem_of_filter. split; [by right|].
  apply list_elem_of_fmap. exists (c, gs). split; [|done].
  simpl. by rewrite decide_True.
Qed.

(** X7: the first [join_room] of a connection for a room appends it to
    the players, after those already there, with role null and, as name, the
    name of the payload when it is truthy and otherwise [Player_] followed
    by the first four characters of the connection identifier; moderator
    and status are untouched.  The count announced to the group is the old
    one plus one, and the caller, once in the group, is among those it
    reaches. *)
Theorem join_room_adds_player (st : State) (sid s : string) (payload : JsVal)
    (room : Room.t) :
  nullish payload = false ->
  field payload "roomId" = JStr s ->
  rooms_get (trim (toUpperCase s)) (rooms st) = Some room ->
  sid ∉ ids room ->
  let code := trim (toUpperCase s) in
  let newcomer :=
    {| Player.id := sid;
       Player.name := if truthy (field payload "name")
                      then field payload "name"
                      else JStr ("Player_" +:+ String.substring 0 4 sid);
       Player.role := JNull |} in
  let room' :=
    {| Room.moderatorId := Room.moderatorId room;
       Room.players := Room.players room ++ [newcomer];
       Room.status := Room.status room |} in
  let tr := socket_join sid code (io st) in
  join_room sid payload st =
    Returned {| rooms := rooms_set code room' (rooms st); io := tr |}
      ([ socket_emit sid (role_assigned player (Some code));
         io_to_emit tr code
           (player_count_update (S (length (Room.players room)))) ]
       ++ to_moderator tr room'
            (player_list_update (Room.players room ++ [newcomer]))
       ++ [ socket_emit sid
              (init_state (truthy_id (Room.moderatorId room))
                          (S (length (Room.players room)))) ]) /\
  (sid ∈ map fst (io st) -> sid ∈ members tr code).
Proof.
  intros Hn Hid Hget Hnew code newcomer room' tr. split.
  - subst code newcomer room' tr.
    unfold join_room. rewrite Hn, Hid. cbv beta iota zeta. rewrite Hget.
    assert (Hfind : list_find (fun p => Player.id p = sid) (Room.players room)
                    = None).
    { apply list_find_None, Forall_forall. intros p Hp Heq. apply Hnew.
      unfold ids. change (map Player.id) with (fmap (M:=list) Player.id).
      apply list_elem_of_fmap. eauto. }
    rewrite Hfind. unfold Room.set_players, substr0.
    cbn [Room.players Room.moderatorId Room.status].
    rewrite length_app. cbn [length].
    replace (length (Room.players room) + 1) with (S (length (Room.players room)))
      by lia.
    reflexivity.
  - apply members_after_join.
Qed.

Lemma join_room_adds_player_witness :
  (sidM ∉ ids demo_room) /\
  exists st' out room',
    join_room sidM (join_payload "as29 " JUndefined) demo_state
      = Returned st' out /\
    rooms_get "AS29" (rooms st') = Some room' /\
    map Player.name (Room.players room')
      = [JStr "Ana"; JStr "Player_BBBB"; JStr "Player_MMMM"].
Proof.
  assert (Hnew : sidM ∉ ids demo_room).
  { apply (bool_decide_unpack _). by vm_compute. }
  split; [exact Hnew|].
  destruct (join_room_adds_player demo_state sidM "as29 "
              (join_payload "as29 " JUndefined) demo_room
              eq_refl eq_refl eq_refl Hnew) as [H _].
  eexists _, _, _. split; [exact H|]. split; reflexivity.
Defined.

(** ** [reset_room] *)

Lemma set_role_same (p : Player.t) : Player.set_role (Player.role p) p = p.
Proof. by destruct p. Qed.

Lemma reset_players (ps : list Player.t) :
  Forall (fun p => Player.role p = JNull) (map (Player.set_role JNull) ps) /\
  map Player.id (map (Player.set_role JNull) ps) = map Player.id ps /\
  map Player.name (map (Player.set_role JNull) ps) = map Player.name ps /\
  map (Player.set_role JNull) (map (Player.set_role JNull) ps)
    = map (Player.set_role JNull) ps.
Proof.
  induction ps as [|p ps (IH1 & IH2 & IH3 & IH4)]; simpl.
  - repeat split; constructor.
  - split; [by constructor|]. split; [by f_equal|]. split; by f_equal.
Qed.

Lemma reset_room_moderator (st : State) (sid code : string) (room : Room.t)
    (payload : JsVal) :
  nullish payload = false ->
  lookup_room (field payload "roomId") (rooms st) = Some (code, room) ->
  Room.moderatorId room = Some sid ->
  reset_room sid payload st =
    Returned
      {| rooms :=
           rooms_set code
             {| Room.moderatorId := Room.moderatorId room;
                Room.players := map (Player.set_role JNull) (Room.players room);
                Room.status := waiting |} (rooms st);
         io := io st |}
      [ io_to_emit (io st) code room_reset;
        socket_emit sid
          (player_list_update (map (Player.set_role JNull) (Room.players room)));
        socket_emit sid (player_count_update (length (Room.players room)));
        socket_emit sid (status_msg "Đã reset! Sẵn sàng chia lại.") ].
Proof.
  intros Hn Hl Hmod. unfold reset_room. rewrite Hn, Hl.
  rewrite decide_False by (rewrite Hmod; intros H; by apply H).
  simpl. by rewrite length_map.
Qed.

(** X8: a [reset_room] of the moderator sets the role of every player to
    null and the status to waiting, and keeps the moderator and the
    players' identifiers and names, in order.  The group is sent
    [room_reset]; the moderator is sent the refreshed list, the count and a
    status message.  A second reset changes nothing more. *)
Theorem reset_room_clears_roles (st : State) (sid code : string)
    (room : Room.t) (payload : JsVal) :
  nullish payload = false ->
  lookup_room (field payload "roomId") (rooms st) = Some (code, room) ->
  Room.moderatorId room = Some sid ->
  exists room' st',
    reset_room sid payload st =
      Returned st'
        [ io_to_emit (io st) code room_reset;
          socket_emit sid (player_list_update (Room.players room'));
          socket_emit sid (player_count_update (length (Room.players room)));
          socket_emit sid (status_msg "Đã reset! Sẵn sàng chia lại.") ] /\
    st' = {| rooms := rooms_set code room' (rooms st); io := io st |} /\
    rooms_get code (rooms st') = Some room' /\
    Forall (fun p => Player.role p = JNull) (Room.players room') /\
    map Player.id (Room.players room') = map Player.id (Room.players room) /\
    map Player.name (Room.players room') = map Player.name (Room.players room) /\
    Room.status room' = waiting /\
    Room.moderatorId room' = Some sid /\
    after (reset_room sid payload st') = Some st'.
Proof.
  intros Hn Hl Hmod.
  pose proof (reset_room_moderator st sid code room payload Hn Hl Hmod) as Hrun.
  destruct (reset_players (Room.players room)) as (Hnull & Hids & Hnames & Hidem).
  exists {| Room.moderatorId := Room.moderatorId room;
            Room.players := map (Player.set_role JNull) (Room.players room);
            Room.status := waiting |}.
  eexists. split; [exact Hrun|]. split; [reflexivity|]. simpl.
  split; [by rewrite rooms_get_set, decide_True|].
  split; [done|]. split; [done|]. split; [done|]. split; [done|].
  split; [done|].
  apply lookup_room_Some in Hl as [Hfield _].
  set (room1 := {| Room.moderatorId := Room.moderatorId room;
                   Room.players := map (Player.set_role JNull) (Room.players room);
                   Room.status := waiting |}).
  set (st1 := {| rooms := rooms_set code room1 (rooms st); io := io st |}).
  assert (Hl1 : lookup_room (field payload "roomId") (rooms st1)
                = Some (code, room1)).
  { apply lookup_room_Some. split; [done|]. simpl.
    by rewrite rooms_get_set, decide_True. }
  rewrite (reset_room_moderator st1 sid code room1 payload Hn Hl1 Hmod).
  simpl. rewrite Hidem, rooms_set_set. reflexivity.
Qed.

Lemma reset_room_clears_roles_witness :
  exists room' st' out,
    reset_room sidM (roles_payload "AS29" []) demo_state = Returned st' out /\
    rooms_get "AS29" (rooms st') = Some room' /\
    Forall (fun p => Player.role p = JNull) (Room.players room') /\
    Room.status room' = waiting.
Proof.
  destruct (reset_room_clears_roles demo_state sidM "AS29" demo_room
              (roles_payload "AS29" []) eq_refl eq_refl eq_refl)
    as (room' & st' & Hrun & _ & Hget & Hnull & _ & _ & Hst & _).
  exists room', st'. eexists. split; [exact Hrun|].
  split; [exact Hget|]. split; [exact Hnull | exact Hst].
Defined.

Lemma start_assign_roles_moderator (st : State) (sid code : string)
    (room : Room.t) (payload : JsVal) (roles shuffled : list JsVal)
    (draws rest : list Q) :
  nullish payload = false ->
  lookup_room (field payload "roomId") (rooms st) = Some (code, room) ->
  field payload "selectedRoles" = JArr roles ->
  Room.moderatorId room = Some sid ->
  length roles = length (Room.players room) ->
  fisher_yates (length roles - 1) draws roles = Some (shuffled, rest) ->
  let players :=
    imap (fun index p => Player.set_role (shuffled !!! index) p)
         (Room.players room) in
  start_assign_roles sid payload draws st =
    Returned
      {| rooms :=
           rooms_set code
             {| Room.moderatorId := Room.moderatorId room;
                Room.players := players;
                Room.status := assigned |} (rooms st);
         io := io st |}
      (map (fun p => io_to_emit (io st) (Player.id p)
                       (receive_role (Player.role p))) players
       ++ [ socket_emit sid (role_summary (buildRoleSummary players));
            socket_emit sid (status_msg "Đã chia bài thành công!") ]).
Proof.
  intros Hn Hl Hroles Hmod Hlen Hfy players. unfold start_assign_roles.
  rewrite Hn, Hl, Hroles.
  rewrite decide_False by (rewrite Hmod; intros H; by apply H).
  simpl. rewrite Hlen, Z.eqb_refl. simpl. rewrite <- Hlen, Hfy. reflexivity.
Qed.

Lemma unassign_players (f : nat -> JsVal) (ps : list Player.t) :
  Forall (fun p => Player.role p = JNull) ps ->
  map (Player.set_role JNull) (imap (fun index p => Player.set_role (f index) p) ps)
  = ps.
Proof.
  revert f. induction ps as [|p ps IH]; intros f H; simpl; [done|].
  apply Forall_cons in H as [Hp H]. f_equal.
  - destruct p as [i n r]. simpl in *. by subst.
  - by apply (IH (f ∘ S)).
Qed.

(** X9: in a waiting room where nobody holds a role, a distribution by
    the moderator followed by a [reset_room] brings the whole state back to
    what it was: the same registry, entry by entry, and the same groups. *)
Theorem reset_undoes_distribution (st : State) (sid code : string)
    (room : Room.t) (payload payload' : JsVal) (roles : list JsVal)
    (draws : list Q) :
  nullish payload = false ->
  field payload "roomId" = JStr code ->
  field payload "selectedRoles" = JArr roles ->
  nullish payload' = false ->
  field payload' "roomId" = JStr code ->
  rooms_get code (rooms st) = Some room ->
  Room.moderatorId room = Some sid ->
  Room.status room = waiting ->
  Forall (fun p => Player.role p = JNull) (Room.players room) ->
  length roles = length (Room.players room) ->
  length roles - 1 <= length draws ->
  exists st1 out1 out2,
    start_assign_roles sid payload draws st = Returned st1 out1 /\
    (exists room1, rooms_get code (rooms st1) = Some room1 /\
                   Room.status room1 = assigned) /\
    reset_room sid payload' st1 = Returned st out2.
Proof.
  intros Hn Hid Hroles Hn' Hid' Hget Hmod Hstat Hnull Hlen Hdraws.
  destruct (fisher_yates_is_Some (length roles - 1) draws roles Hdraws)
    as [[shuffled rest] Hfy].
  assert (Hl : lookup_room (field payload "roomId") (rooms st)
               = Some (code, room))
    by (apply lookup_room_Some; by rewrite Hid).
  pose proof (start_assign_roles_moderator st sid code room payload roles
                shuffled draws rest Hn Hl Hroles Hmod Hlen Hfy) as Hrun.
  simpl in Hrun.
  set (players := imap (fun index p => Player.set_role (shuffled !!! index) p)
                       (Room.players room)) in *.
  set (room1 := {| Room.moderatorId := Room.moderatorId room;
                   Room.players := players; Room.status := assigned |}) in *.
  set (st1 := {| rooms := rooms_set code room1 (rooms st); io := io st |}) in *.
  assert (Hget1 : rooms_get code (rooms st1) = Some room1)
    by (simpl; by rewrite rooms_get_set, decide_True).
  assert (Hl1 : lookup_room (field payload' "roomId") (rooms st1)
                = Some (code, room1))
    by (apply lookup_room_Some; by rewrite Hid').
  eexists st1, _, _. split; [exact Hrun|]. split; [by exists room1|].
  rewrite (reset_room_moderator st1 sid code room1 payload' Hn' Hl1 Hmod).
  simpl. subst players. rewrite unassign_players by done.
  rewrite rooms_set_set.
  replace {| Room.moderatorId := Room.moderatorId room;
             Room.players := Room.players room; Room.status := waiting |}
    with room by (destruct room; simpl in *; by subst).
  rewrite rooms_set_same by done. by destruct st.
Qed.

Lemma reset_undoes_distribution_witness :
  exists st1 out1 out2,
    start_assign_roles sidM
      (roles_payload "AS29" [JStr "Wolf"; JStr "Villager"]) [1 # 3]%Q demo_state
      = Returned st1 out1 /\
    (exists room1, rooms_get "AS29" (rooms st1) = Some room1 /\
                   Room.status room1 = assigned) /\
    reset_room sidM (roles_payload "AS29" []) st1 = Returned demo_state out2.
Proof.
  assert (Hnull : Forall (fun p => Player.role p = JNull)
                         (Room.players demo_room))
    by (repeat (apply List.Forall_cons; [reflexivity|]); apply List.Forall_nil).
  exact (reset_undoes_distribution demo_state sidM "AS29" demo_room
           (roles_payload "AS29" [JStr "Wolf"; JStr "Villager"])
           (roles_payload "AS29" []) [JStr "Wolf"; JStr "Villager"] [1 # 3]%Q
           eq_refl eq_refl eq_refl eq_refl eq_refl eq_refl eq_refl eq_refl
           Hnull eq_refl ltac:(simpl; lia)).
Defined.

(** ** [kick_player] *)

Lemma filter_target (pid : string) (ps : list Player.t) :
  filter (fun p => Some (Player.id p) <> Some pid) ps
  = filter (fun p => Player.id p <> pid) ps.
Proof. apply list_filter_iff. intros p. split; intros H Heq; apply H; congruence. Qed.

Lemma kick_player_moderator (st : State) (sid code : string) (room : Room.t)
    (payload : JsVal) :
  nullish payload = false ->
  lookup_room (field payload "roomId") (rooms st) = Some (code, room) ->
  Room.moderatorId room = Some sid ->
  let target := as_string (field payload "playerId") in
  let players :=
    filter (fun p => Some (Player.id p) <> target) (Room.players room) in
  let live :=
    match target with
    | Some pid => if sockets_has pid (io st) then Some pid else None
    | None => None
    end in
  kick_player sid payload st =
    Returned
      {| rooms := rooms_set code (Room.set_players players room) (rooms st);
         io := match live with
               | Some pid => socket_leave pid code (io st)
               | None => io st
               end |}
      ([ io_to_emit (io st) code (player_count_update (length players));
         io_to_emit (io st) sid (player_list_update players) ]
       ++ match live with
          | Some pid =>
              [ socket_emit pid kicked;
                socket_emit pid
                  (error_msg "Bạn đã bị Quản trò kick khỏi phòng.") ]
          | None => []
          end).
Proof.
  intros Hn Hl Hmod target players live. unfold kick_player.
  rewrite Hn, Hl.
  rewrite decide_False by (rewrite Hmod; intros H; by apply H).
  subst live players target. cbv beta iota zeta.
  destruct (as_string _) as [pid|]; [destruct (sockets_has _ _)|];
    simpl; by rewrite ?app_nil_r.
Qed.

Lemma not_member_after_leave (pid g : string) (tr : Adapter) :
  pid <> g -> pid ∉ members (socket_leave pid g tr) g.
Proof.
  unfold members, socket_leave. intros Hne H.
  match type of H with
  | _ ∈ map fst (filter ?P (map ?f tr)) =>
      change (pid ∈ fst <$> filter P (f <$> tr)) in H
  end.
  apply list_elem_of_fmap in H as ([c gs] & Hc & H). simpl in Hc. subst c.
  apply list_elem_of_filter in H as [HP H].
  apply list_elem_of_fmap in H as ([c0 gs0] & Heq & _). simpl in *.
  destruct (decide (c0 = pid)) as [->|Hc0]; simplify_eq.
  destruct HP as [HP|HP]; [done|].
  by apply list_elem_of_filter in HP as [HP _].
Qed.

(** X10: a [kick_player] of the moderator naming a connection removes the
    entries of that connection from the players and keeps the others in
    order; naming somebody who is not a player leaves the registry as it is.
    The new count goes to the group as it stood before the kick and the new
    list to the moderator.  If the named connection is live, whether a
    player or not, it leaves the group of the room, so that later broadcasts
    do not reach it, and is sent [kicked] and an [error_msg]. *)
Theorem kick_player_removes (st : State) (sid code pid : string)
    (room : Room.t) (payload : JsVal) :
  nullish payload = false ->
  lookup_room (field payload "roomId") (rooms st) = Some (code, room) ->
  field payload "playerId" = JStr pid ->
  Room.moderatorId room = Some sid ->
  let players := filter (fun p => Player.id p <> pid) (Room.players room) in
  let room' := Room.set_players players room in
  let live := sockets_has pid (io st) in
  kick_player sid payload st =
    Returned
      {| rooms := rooms_set code room' (rooms st);
         io := if live then socket_leave pid code (io st) else io st |}
      ([ io_to_emit (io st) code (player_count_update (length players));
         io_to_emit (io st) sid (player_list_update players) ]
       ++ if live
          then [ socket_emit pid kicked;
                 socket_emit pid
                   (error_msg "Bạn đã bị Quản trò kick khỏi phòng.") ]
          else []) /\
  (pid ∉ ids room') /\
  (pid ∉ ids room -> rooms_set code room' (rooms st) = rooms st) /\
  (pid <> code -> pid ∉ members (socket_leave pid code (io st)) code).
Proof.
  intros Hn Hl Hpid Hmod players room' live.
  split; [|split; [|split]].
  - rewrite (kick_player_moderator st sid code room payload Hn Hl Hmod).
    rewrite Hpid. simpl. rewrite filter_target.
    subst live room' players. by destruct (sockets_has pid (io st)).
  - unfold ids. subst room' players. simpl.
    change (map Player.id) with (fmap (M:=list) Player.id).
    intros H. apply list_elem_of_fmap in H as (p & Hp & H).
    apply list_elem_of_filter in H as [H _]. by apply H.
  - intros Hout. subst room' players. rewrite filter_all by done.
    rewrite room_eta. apply rooms_set_same.
    by apply lookup_room_Some in Hl as [_ Hl].
  - apply not_member_after_leave.
Qed.

Lemma kick_player_removes_witness :
  exists st' out room',
    kick_player sidM (JObj [("roomId", JStr "AS29"); ("playerId", JStr sidA)])
      demo_state = Returned st' out /\
    rooms_get "AS29" (rooms st') = Some room' /\
    ids room' = [sidB] /\
    map em_msg out =
      [ player_count_update 1; player_list_update (Room.players room');
        kicked; error_msg "Bạn đã bị Quản trò kick khỏi phòng." ] /\
    (sidA ∉ members (io st') "AS29").
Proof.
  destruct (kick_player_removes demo_state sidM "AS29" sidA demo_room
              (JObj [("roomId", JStr "AS29"); ("playerId", JStr sidA)])
              eq_refl eq_refl eq_refl eq_refl) as (Hrun & _ & _ & Hleft).
  eexists _, _, _. split; [exact Hrun|]. split; [reflexivity|].
  split; [reflexivity|]. split; [reflexivity|].
  apply Hleft. discriminate.
Defined.

(** X11: a [kick_player] of the moderator whose [playerId] is not a
    string removes nobody and reaches no connection: registry and groups
    are as before, and only the unchanged count and list are emitted. *)
Theorem kick_player_without_target (st : State) (sid code : string)
    (room : Room.t) (payload : JsVal) :
  nullish payload = false ->
  lookup_room (field payload "roomId") (rooms st) = Some (code, room) ->
  as_string (field payload "playerId") = None ->
  Room.moderatorId room = Some sid ->
  kick_player sid payload st =
    Returned st
      [ io_to_emit (io st) code
          (player_count_update (length (Room.players room)));
        io_to_emit (io st) sid (player_list_update (Room.players room)) ].
Proof.
  intros Hn Hl Hpid Hmod.
  rewrite (kick_player_moderator st sid code room payload Hn Hl Hmod).
  rewrite Hpid. simpl.
  match goal with
  | |- context [ Room.set_players ?l room ] =>
      assert (Hall : l = Room.players room)
  end.
  { clear. induction (Room.players room) as [|p ps IH]; [done|].
    rewrite filter_cons, decide_True by done. by rewrite IH. }
  rewrite Hall, room_eta, rooms_set_same.
  - by destruct st.
  - by apply lookup_room_Some in Hl as [_ Hl].
Qed.

Lemma kick_player_without_target_witness :
  kick_player sidM (JObj [("roomId", JStr "AS29")]) demo_state =
    Returned demo_state
      [ io_to_emit (io demo_state) "AS29" (player_count_update 2);
        io_to_emit (io demo_state) sidM
          (player_list_update (Room.players demo_room)) ].
Proof.
  exact (kick_player_without_target demo_state sidM "AS29" demo_room
           (JObj [("roomId", JStr "AS29")]) eq_refl eq_refl eq_refl eq_refl).
Defined.

(** ** [cleanupUser] and [disconnect] *)

Lemma leave_notices_absent (tr : Adapter) (sid code : string) (room : Room.t) :
  absent_from sid room -> leave_notices tr sid code room = [].
Proof.
  intros [Hm Hp]. unfold leave_notices.
  rewrite decide_False by done. by rewrite decide_False by done.
Qed.

Lemma cleanupUser_absent (tr : Adapter) (sid : string) (rs : Registry) :
  Forall room_ok rs ->
  Forall (fun e => absent_from sid e.2) rs ->
  cleanupUser tr sid rs = (rs, []).
Proof.
  induction rs as [|[k v] rs IH]; simpl; [done|].
  intros Hok Habs.
  apply Forall_cons in Hok as [Hv Hok]. apply Forall_cons in Habs as [Ha Habs].
  rewrite cleanupRoom_eq, IH by done. simpl in Ha.
  rewrite leave_notices_absent by done. destruct Ha as [Hm Hp].
  rewrite without_uninvolved by done.
  destruct Hv as (_ & Hdes & _). simpl in Hdes.
  assert (Hd : deserted v = false); [|by rewrite Hd].
  unfold deserted. destruct Hdes as [Hdes| ->]; [|by rewrite andb_false_r].
  rewrite bool_decide_eq_false_2; [done|].
  intros Hnil. apply Hdes. unfold ids. by rewrite Hnil.
Qed.

Lemma without_absent (sid : string) (room : Room.t) :
  absent_from sid (without sid room).
Proof.
  unfold absent_from, without, ids. simpl. split.
  - destruct (decide _); [done|done].
  - change (map Player.id) with (fmap (M:=list) Player.id).
    intros H. apply list_elem_of_fmap in H as (p & Hp & H).
    apply list_elem_of_filter in H as [H _]. by apply H.
Qed.

Lemma cleanupUser_leaves_absent (tr : Adapter) (sid : string) (rs : Registry) :
  Forall (fun e => absent_from sid e.2) (cleanupUser tr sid rs).1.
Proof.
  induction rs as [|[k v] rs IH]; simpl; [constructor|].
  rewrite cleanupRoom_eq.
  destruct (cleanupUser tr sid rs) as [rest' out']. simpl in *.
  destruct (deserted (without sid v)); simpl; [done|].
  constructor; [|done]. apply without_absent.
Qed.

Lemma sockets_remove_twice (sid : string) (tr : list (string * list string)) :
  sockets_remove sid (sockets_remove sid tr) = sockets_remove sid tr /\
  sid ∉ map fst (sockets_remove sid tr).
Proof.
  unfold sockets_remove, Adapter. split.
  - induction tr as [|c tr IH]; [done|]. rewrite filter_cons.
    destruct (decide (c.1 <> sid)); [|done].
    rewrite filter_cons, decide_True by done. by rewrite IH.
  - change (map fst) with (fmap (M:=list) (@fst string (list string))).
    intros H. apply list_elem_of_fmap in H as (c & Hc & H).
    apply list_elem_of_filter in H as [H _]. by apply H.
Qed.

(** X12: in a reachable state, the disconnect of a connection that is
    neither moderator nor player of any room changes no room, deletes none
    and emits nothing; only the connection itself goes. *)
Theorem disconnect_of_stranger (st : State) (sid : string) :
  reachable st ->
  (forall code room, rooms_get code (rooms st) = Some room ->
                     absent_from sid room) ->
  disconnect sid st =
    Returned {| rooms := rooms st; io := sockets_remove sid (io st) |} [].
Proof.
  intros Hst Habs. apply reachable_invariant in Hst as (Hnd & Hrs & _).
  unfold disconnect. rewrite cleanupUser_absent; [done|done|].
  apply Forall_forall. intros [code room] Hin. simpl.
  apply (Habs code). by apply elem_of_rooms_get.
Qed.

Lemma disconnect_of_stranger_witness :
  reachable demo_state /\
  disconnect "CCCCCCCCCCCCCCCCCCCC" demo_state = Returned demo_state [].
Proof.
  split; [exact demo_reachable|].
  assert (Habs : forall code room,
            rooms_get code (rooms demo_state) = Some room ->
            absent_from "CCCCCCCCCCCCCCCCCCCC" room).
  { intros code room H. unfold rooms_get in H. simpl in H.
    destruct (decide ("AS29" = code)); [|discriminate]. injection H as <-.
    split; [discriminate|]. apply (bool_decide_unpack _). by vm_compute. }
  exact (disconnect_of_stranger demo_state "CCCCCCCCCCCCCCCCCCCC"
           demo_reachable Habs).
Defined.

(** X13: after the disconnect of a connection, whatever the state was,
    that connection is the moderator of no room and a player of none, and
    it is no longer among the live connections; the rooms that remain keep
    their order. *)
Theorem disconnect_forgets_connection (st st' : State) (sid : string)
    (out : list Emission) :
  disconnect sid st = Returned st' out ->
  (forall code room, (code, room) ∈ rooms st' -> absent_from sid room) /\
  (sid ∉ map fst (io st')) /\
  map fst (rooms st') `sublist_of` map fst (rooms st).
Proof.
  unfold disconnect.
  pose proof (cleanupUser_leaves_absent (sockets_remove sid (io st)) sid
                (rooms st)) as Habs.
  pose proof (cleanupUser_keys (sockets_remove sid (io st)) sid (rooms st))
    as Hkeys.
  destruct (cleanupUser _ sid (rooms st)) as [rs' out']. simpl in *.
  intros [= <- <-]. simpl. split; [|split; [|done]].
  - intros code room Hin. rewrite Forall_forall in Habs.
    by apply (Habs (code, room)).
  - apply sockets_remove_twice.
Qed.

Lemma disconnect_forgets_connection_witness :
  exists st' out,
    disconnect sidA demo_state = Returned st' out /\
    (forall code room, (code, room) ∈ rooms st' -> absent_from sidA room) /\
    (sidA ∉ map fst (io st')).
Proof.
  eexists _, _. split; [reflexivity|].
  destruct (disconnect_forgets_connection demo_state _ sidA _ eq_refl)
    as (H1 & H2 & _).
  split; [exact H1 | exact H2].
Defined.

(** X14: in a reachable state a second disconnect of the same connection
    is a no-op: it returns the state the first one left and emits
    nothing. *)
Theorem disconnect_twice (st st1 : State) (sid : string)
    (out : list Emission) :
  reachable st ->
  valid_sid sid ->
  disconnect sid st = Returned st1 out ->
  disconnect sid st1 = Returned st1 [].
Proof.
  intros Hst Hsid Hrun.
  assert (Hst1 : reachable st1).
  { apply (reach_step st sid EDisconnect); [done| |by simpl; rewrite Hrun].
    split; [done|constructor]. }
  apply reachable_invariant in Hst1 as (_ & Hrs1 & _).
  unfold disconnect in *.
  pose proof (cleanupUser_leaves_absent (sockets_remove sid (io st)) sid
                (rooms st)) as Habs.
  destruct (cleanupUser _ sid (rooms st)) as [rs' out'] eqn:Hc. simpl in *.
  injection Hrun as <- <-. simpl in *.
  rewrite (proj1 (sockets_remove_twice sid (io st))).
  by rewrite cleanupUser_absent.
Qed.

Lemma disconnect_twice_witness :
  valid_sid sidA /\
  exists st1 out,
    disconnect sidA demo_state = Returned st1 out /\
    disconnect sidA st1 = Returned st1 [].
Proof.
  assert (Hsid : valid_sid sidA) by solve_sid.
  split; [exact Hsid|]. eexists _, _. split; [reflexivity|].
  exact (disconnect_twice demo_state _ sidA _ demo_reachable Hsid eq_refl).
Defined.

(** ** What an event can do to a room *)

Lemma elem_of_rooms_set (k code : string) (r v : Room.t) (rs : Registry) :
  (k, r) ∈ rooms_set code v rs -> (k, r) ∈ rs \/ (k = code /\ r = v).
Proof.
  induction rs as [|[k0 v0] rs IH]; simpl; intros H.
  - apply list_elem_of_singleton in H as [= -> ->]. by right.
  - destruct (decide (k0 = code)) as [->|Hne].
    + apply elem_of_cons in H as [[= -> ->]|H]; [by right|].
      left. by right.
    + apply elem_of_cons in H as [[= -> ->]|H]; [left; left|].
      destruct (IH H) as [?|?]; [left; by right|by right].
Qed.

Lemma elem_of_cleanupUser (tr : Adapter) (sid k : string) (r' : Room.t)
    (rs : Registry) :
  (k, r') ∈ (cleanupUser tr sid rs).1 ->
  exists r, (k, r) ∈ rs /\ r' = without sid r.
Proof.
  induction rs as [|[k0 v0] rs IH]; simpl.
  - intros H. by apply elem_of_nil in H.
  - rewrite cleanupRoom_eq.
    destruct (cleanupUser tr sid rs) as [rest' out']. simpl in *.
    destruct (deserted (without sid v0)); simpl; intros H.
    + destruct (IH H) as (r & Hr & ->). exists r. split; [by right|done].
    + apply elem_of_cons in H as [[= -> ->]|H].
      * exists v0. split; [left|done].
      * destruct (IH H) as (r & Hr & ->). exists r. split; [by right|done].
Qed.

Lemma set_room_step (sid : string) (ev : Event) (k code : string)
    (r' room room' : Room.t) (rs : Registry) :
  rooms_get code rs = Some room ->
  room_step sid ev room room' ->
  (k, r') ∈ rooms_set code room' rs ->
  exists r, (k, r) ∈ rs /\ room_step sid ev r r'.
Proof.
  intros Hget Hstep Hin.
  apply elem_of_rooms_set in Hin as [Hin|[-> ->]].
  - exists r'. split; [done|constructor].
  - exists room. split; [by apply rooms_get_elem_of|done].
Qed.

Lemma handle_room_step (st st' : State) (sid : string) (ev : Event)
    (k : string) (r' : Room.t) :
  after (handle sid ev st) = Some st' ->
  (k, r') ∈ rooms st' ->
  (rooms_get k (rooms st) = None /\ r' = opened_room sid /\
   exists draws rest, ev = ECreateRoom draws /\
                      generateRoomCode (rooms st) draws = Some (k, rest)) \/
  exists r, (k, r) ∈ rooms st /\ room_step sid ev r r'.
Proof.
  intros Hstep Hin.
  assert (Hsame : rooms st' = rooms st ->
                  exists r, (k, r) ∈ rooms st /\ room_step sid ev r r').
  { intros Heq. rewrite Heq in Hin. exists r'. split; [done|constructor]. }
  destruct ev as [|draws|payload|payload draws|payload|payload|];
    simpl in Hstep.
  - injection Hstep as <-. right. by apply Hsame.
  - unfold create_room in Hstep.
    destruct (generateRoomCode _ _) as [[c rest]|] eqn:Hgen; [|discriminate].
    pose proof (generateRoomCode_attempt _ _ _ _ Hgen) as [_ Hfree].
    unfold getRoom in Hstep. rewrite Hfree in Hstep. simpl in Hstep.
    injection Hstep as <-. simpl in Hin.
    rewrite rooms_set_set, rooms_set_fresh in Hin by done.
    apply elem_of_app in Hin as [Hin|Hin].
    + right. exists r'. split; [done|constructor].
    + apply list_elem_of_singleton in Hin as [= -> ->]. left. eauto 6.
  - right. unfold join_room in Hstep.
    destruct (nullish payload); [injection Hstep as <-; by apply Hsame|].
    destruct (field payload "roomId") as [| | | |s| |];
      try (injection Hstep as <-; by apply Hsame).
    destruct (rooms_get (trim (toUpperCase s)) (rooms st)) as [room|] eqn:Hget;
      [|injection Hstep as <-; by apply Hsame].
    simpl in Hstep. injection Hstep as <-. simpl in Hin.
    eapply set_room_step; [done| |done].
    destruct (list_find _ (Room.players room)) as [[i q]|] eqn:Hfind.
    + rewrite room_eta. constructor.
    + apply step_join; [done|done|].
      apply list_find_None in Hfind. rewrite Forall_forall in Hfind.
      unfold ids. change (map Player.id) with (fmap (M:=list) Player.id).
      intros H. apply list_elem_of_fmap in H as (p & Hp & H).
      by apply (Hfind p).
  - right. unfold start_assign_roles in Hstep.
    destruct (nullish payload); [injection Hstep as <-; by apply Hsame|].
    destruct (lookup_room _ _) as [[c r]|] eqn:Hl;
      [|injection Hstep as <-; by apply Hsame].
    apply lookup_room_Some in Hl as [_ Hl].
    destruct (decide _) as [|Hmod]; [injection Hstep as <-; by apply Hsame|].
    apply moderator_guard in Hmod.
    destruct (js_length _); [|injection Hstep as <-; by apply Hsame].
    destruct (negb _); [injection Hstep as <-; by apply Hsame|].
    destruct (js_spread _); [|injection Hstep as <-; by apply Hsame].
    destruct (fisher_yates _ _ _) as [[shuffled rest]|]; [|discriminate].
    simpl in Hstep. injection Hstep as <-. simpl in Hin.
    eapply set_room_step; [done| |done].
    apply step_assign; [done|]. apply ids_of_assigned.
  - right. unfold reset_room in Hstep.
    destruct (nullish payload); [injection Hstep as <-; by apply Hsame|].
    destruct (lookup_room _ _) as [[c r]|] eqn:Hl;
      [|injection Hstep as <-; by apply Hsame].
    apply lookup_room_Some in Hl as [_ Hl].
    destruct (decide _) as [|Hmod]; [injection Hstep as <-; by apply Hsame|].
    apply moderator_guard in Hmod.
    simpl in Hstep. injection Hstep as <-. simpl in Hin.
    eapply set_room_step; [done| |done]. by apply step_reset.
  - right. unfold kick_player in Hstep.
    destruct (nullish payload); [injection Hstep as <-; by apply Hsame|].
    destruct (lookup_room _ _) as [[c r]|] eqn:Hl;
      [|injection Hstep as <-; by apply Hsame].
    apply lookup_room_Some in Hl as [_ Hl].
    destruct (decide _) as [|Hmod]; [injection Hstep as <-; by apply Hsame|].
    apply moderator_guard in Hmod.
    assert (Hk : room_step sid (EKickPlayer payload) r
              (Room.set_players
                 (filter (fun p => Some (Player.id p)
                                   <> as_string (field payload "playerId"))
                         (Room.players r)) r)) by (by apply step_kick).
    destruct (as_string (field payload "playerId")) as [pid|] eqn:Hpid;
      [destruct (sockets_has _ _)|];
      simpl in Hstep; injection Hstep as <-; simpl in Hin;
      (eapply set_room_step; [done| |done]); exact Hk.
  - right. unfold disconnect in Hstep.
    pose proof (elem_of_cleanupUser (sockets_remove sid (io st)) sid k r'
                  (rooms st)) as Hres.
    destruct (cleanupUser _ sid (rooms st)) as [rs' out]. simpl in *.
    injection Hstep as <-. simpl in Hin.
    destruct (Hres Hin) as (r & Hr & ->). exists r. split; [done|constructor].
Qed.

Lemma reachable_unassigned (st : State) :
  reachable st ->
  forall k r, (k, r) ∈ rooms st -> Room.status r = waiting ->
              Forall (fun p => Player.role p = JNull) (Room.players r).
Proof.
  induction 1 as [|st sid ev st' _ IH _ Hstep]; intros k r' Hin Hw.
  - by apply elem_of_nil in Hin.
  - destruct (handle_room_step st st' sid ev k r' Hstep Hin)
      as [(_ & -> & _)|(r & Hr & Hrs)]; [constructor|].
    specialize (IH k r Hr).
    inversion Hrs as [ | ? ? p Hp Hrole _ | | | | ]; subst; simpl in *.
    + by apply IH.
    + apply Forall_app. split; [by apply IH|]. by constructor.
    + discriminate.
    + apply reset_players.
    + eapply Forall_sublist; [by apply IH|]. apply sublist_filter.
    + eapply Forall_sublist; [by apply IH|]. apply sublist_filter.
Qed.

(** X15: in every reachable state, in a room whose status is waiting no
    player holds a role: roles exist only between a distribution and the
    next reset (a player who joins an assigned room has none either). *)
Theorem waiting_room_has_no_roles (st : State) (code : string)
    (room : Room.t) :
  reachable st ->
  rooms_get code (rooms st) = Some room ->
  Room.status room = waiting ->
  Forall (fun p => Player.role p = JNull) (Room.players room).
Proof.
  intros Hst Hget. apply (reachable_unassigned st Hst code).
  by apply rooms_get_elem_of.
Qed.

Lemma waiting_room_has_no_roles_witness :
  reachable demo_state /\
  Forall (fun p => Player.role p = JNull) (Room.players demo_room).
Proof.
  split; [exact demo_reachable|].
  exact (waiting_room_has_no_roles demo_state "AS29" demo_room
           demo_reachable eq_refl eq_refl).
Defined.

(** X16: the moderator of a room is never replaced.  Across any event, a
    room registered under a code that already resolved keeps its
    [moderatorId], except that the disconnect of the moderator itself clears
    it; so a room that has lost its moderator stays without one.  A code
    that did not resolve before belongs to a room just opened, moderated by
    the caller. *)
Theorem moderator_never_replaced (st st' : State) (sid : string) (ev : Event)
    (k : string) (r' : Room.t) :
  after (handle sid ev st) = Some st' ->
  (k, r') ∈ rooms st' ->
  (rooms_get k (rooms st) = None /\ Room.moderatorId r' = Some sid /\
   exists draws, ev = ECreateRoom draws) \/
  exists r, (k, r) ∈ rooms st /\
    (Room.moderatorId r' = Room.moderatorId r \/
     (ev = EDisconnect /\ Room.moderatorId r = Some sid /\
      Room.moderatorId r' = None)).
Proof.
  intros Hstep Hin.
  destruct (handle_room_step st st' sid ev k r' Hstep Hin)
    as [(Hnone & -> & draws & rest & -> & _)|(r & Hr & Hrs)].
  - left. eauto.
  - right. exists r. split; [done|].
    inversion Hrs; subst; simpl; try (by left).
    unfold without. simpl.
    destruct (decide (Room.moderatorId r = Some sid)); [by right|by left].
Qed.

Lemma moderator_never_replaced_witness :
  exists st' r r',
    after (handle sidM EDisconnect demo_state) = Some st' /\
    (("AS29", r') ∈ rooms st') /\ (("AS29", r) ∈ rooms demo_state) /\
    (Room.moderatorId r' = Room.moderatorId r \/
     (EDisconnect = EDisconnect /\ Room.moderatorId r = Some sidM /\
      Room.moderatorId r' = None)).
Proof.
  assert (Hin : ("AS29", without sidM demo_room)
                ∈ [("AS29", without sidM demo_room)]) by left.
  destruct (moderator_never_replaced demo_state
              {| rooms := [("AS29", without sidM demo_room)];
                 io := sockets_remove sidM (io demo_state) |}
              sidM EDisconnect "AS29" (without sidM demo_room) eq_refl Hin)
    as [(Hnone & _)|(r & Hr & H)]; [discriminate|].
  eexists _, r, _. split; [reflexivity|]. split; [exact Hin|].
  split; [exact Hr | exact H].
Defined.

(** X17: the status of a room changes only through its moderator: across
    any event, a room whose code already resolved keeps its status unless
    the caller is its moderator and the event is a [start_assign_roles]
    (status becomes assigned) or a [reset_room] (status becomes waiting).
    Joining, kicking and disconnecting never change it. *)
Theorem status_changes_only_by_moderator (st st' : State) (sid : string)
    (ev : Event) (k : string) (r' : Room.t) :
  after (handle sid ev st) = Some st' ->
  (k, r') ∈ rooms st' ->
  is_Some (rooms_get k (rooms st)) ->
  exists r, (k, r) ∈ rooms st /\
    (Room.status r' = Room.status r \/
     (Room.moderatorId r = Some sid /\
      ((Room.status r' = assigned /\
        exists payload draws, ev = EStartAssignRoles payload draws) \/
       (Room.status r' = waiting /\
        exists payload, ev = EResetRoom payload)))).
Proof.
  intros Hstep Hin Hsome.
  destruct (handle_room_step st st' sid ev k r' Hstep Hin)
    as [(Hnone & _)|(r & Hr & Hrs)].
  - rewrite Hnone in Hsome. by destruct Hsome.
  - exists r. split; [done|].
    inversion Hrs; subst; simpl; try (by left).
    + right. split; [done|]. left. eauto.
    + right. split; [done|]. right. eauto.
Qed.

Lemma status_changes_only_by_moderator_witness :
  exists st' r',
    after (handle sidA (EJoinRoom (join_payload "AS29" JNull)) demo_state)
      = Some st' /\
    (("AS29", r') ∈ rooms st') /\
    exists r, (("AS29", r) ∈ rooms demo_state) /\
              Room.status r' = Room.status r.
Proof.
  assert (Hin : ("AS29", demo_room) ∈ rooms demo_state) by left.
  destruct (status_changes_only_by_moderator demo_state demo_state sidA
              (EJoinRoom (join_payload "AS29" JNull)) "AS29" demo_room
              eq_refl Hin ltac:(vm_compute; eauto))
    as (r & Hr & [H|(_ & [[_ (? & ? & [=])]|[_ (? & [=])]])]).
  exists demo_state, demo_room. split; [reflexivity|]. split; [exact Hin|].
  exists r. split; [exact Hr | exact H].
Defined.

(** ** The shuffle of [start_assign_roles] *)

Lemma fisher_yates_rest (i : nat) (draws : list Q) (a s : list JsVal)
    (rest : list Q) :
  fisher_yates i draws a = Some (s, rest) ->
  rest = drop i draws /\ length s = length a.
Proof.
  revert draws a. induction i as [|i IH]; intros draws a; simpl.
  - intros [= -> ->]. done.
  - destruct draws as [|r tl]; [done|]. intros H.
    destruct (IH _ _ H) as [-> Hlen]. by rewrite Hlen, swap_length.
Qed.

Lemma fisher_yates_None (i : nat) (draws : list Q) (a : list JsVal) :
  fisher_yates i draws a = None <-> length draws < i.
Proof.
  revert draws a. induction i as [|i IH]; intros draws a; simpl.
  - split; [done|lia].
  - destruct draws as [|r tl]; simpl; [split; [lia|done]|].
    rewrite IH. lia.
Qed.

(** X18: the shuffle asks [Math.random] for exactly one draw per loop
    turn: entered at index [i] it starves exactly when fewer than [i] draws
    are left, otherwise it hands back the draws after the first [i] and a
    list as long as the one it was given (whatever the draws are); entered
    at index 0, as for a list of at most one role, it changes nothing. *)
Theorem fisher_yates_consumes (i : nat) (draws : list Q) (a : list JsVal) :
  (fisher_yates i draws a = None <-> length draws < i) /\
  (forall s rest, fisher_yates i draws a = Some (s, rest) ->
                  rest = drop i draws /\ length s = length a) /\
  (i = 0 -> fisher_yates i draws a = Some (a, draws)).
Proof.
  split; [apply fisher_yates_None|].
  split; [intros s rest; apply fisher_yates_rest|]. by intros ->.
Qed.

Lemma rand_index_hits (j k : nat) :
  j < k -> exists r, valid_draw r /\ rand_index r k = j.
Proof.
  intros Hj.
  assert (Hp : Z.pos (Pos.of_nat k) = Z.of_nat k)
    by (rewrite <- positive_nat_Z, Nat2Pos.id; lia).
  exists (Z.of_nat j # Pos.of_nat k). split.
  - unfold valid_draw, Qle, Qlt. cbn [Qnum Qden]. rewrite Hp. lia.
  - unfold rand_index, Qmult, inject_Z, Qfloor. cbn [Qnum Qden].
    rewrite Pos.mul_1_r, Hp, Z.div_mul by lia. lia.
Qed.

Lemma fisher_yates_reaches (i : nat) (a t : list JsVal) :
  length a = length t ->
  i < length a \/ i = 0 ->
  take (S i) a ≡ₚ take (S i) t ->
  drop (S i) a = drop (S i) t ->
  exists draws, Forall valid_draw draws /\ length draws = i /\
                fisher_yates i draws a = Some (t, []).
Proof.
  revert a. induction i as [|i IH]; intros a Hlen Hi Hp Hd.
  - exists []. split; [constructor|]. split; [done|]. simpl.
    destruct a as [|x a], t as [|y t]; simpl in *; try done.
    rewrite !take_0 in Hp. rewrite !drop_0 in Hd.
    apply Permutation_length_1 in Hp. by subst.
  - destruct Hi as [Hi|Hi]; [|lia].
    destruct (lookup_lt_is_Some_2 t (S i)) as [x Hx]; [lia|].
    destruct (lookup_lt_is_Some_2 a (S i)) as [y Hy]; [done|].
    assert (Hxin : x ∈ take (S (S i)) a).
    { rewrite Hp. apply list_elem_of_lookup_2 with (S i).
      rewrite lookup_take_lt by lia. done. }
    apply list_elem_of_lookup_1 in Hxin as [j Hj].
    apply lookup_take_Some in Hj as [Hj Hjlt].
    destruct (rand_index_hits j (S i + 1)) as (r & Hr & Hrj); [lia|].
    assert (Hswap : swap (S i) j a = <[j := y]> (<[S i := x]> a)).
    { unfold swap. by rewrite (list_lookup_total_correct a j x Hj),
                              (list_lookup_total_correct a (S i) y Hy). }
    assert (Hn : swap (S i) j a !! S i = Some x).
    { rewrite Hswap. destruct (decide (j = S i)) as [->|Hne].
      - rewrite list_lookup_insert_eq by (rewrite length_insert; lia).
        congruence.
      - rewrite list_lookup_insert_ne by done.
        by rewrite list_lookup_insert_eq by lia. }
    assert (Hdrop : drop (S (S i)) (swap (S i) j a) = drop (S (S i)) a).
    { rewrite Hswap. by rewrite !drop_insert_lt by lia. }
    assert (Htake : take (S (S i)) (swap (S i) j a) ≡ₚ take (S (S i)) a).
    { rewrite Hswap. rewrite !take_insert_lt by lia.
      apply Permutation_insert_swap; by rewrite lookup_take_lt by lia. }
    destruct (IH (swap (S i) j a)) as (draws & Hdraws & Hdl & Hrun).
    + by rewrite swap_length.
    + left. rewrite swap_length. lia.
    + apply (Permutation_app_inv_r [x]).
      rewrite <- (take_S_r _ _ _ Hn), <- (take_S_r _ _ _ Hx).
      by rewrite Htake.
    + rewrite (drop_S _ _ _ Hn), (drop_S _ _ _ Hx). congruence.
    + exists (r :: draws). split; [by constructor|].
      split; [simpl; by rewrite Hdl|].
      simpl. simpl in Hrj. rewrite Hrj. exact Hrun.
Qed.

Lemma fisher_yates_any (roles target : list JsVal) :
  target ≡ₚ roles ->
  exists draws, Forall valid_draw draws /\
                length draws = length roles - 1 /\
                fisher_yates (length roles - 1) draws roles
                = Some (target, []).
Proof.
  intros Hp.
  assert (Hlen : length roles = length target)
    by (symmetry; by apply Permutation_length).
  apply fisher_yates_reaches; [done|lia| |].
  - rewrite !take_ge by lia. done.
  - by rewrite !drop_ge by lia.
Qed.

(** X19: every arrangement of the supplied roles can come out of a
    distribution: for each permutation of [selectedRoles] there are draws in
    [0, 1), one per turn of the shuffle, with which the moderator's
    [start_assign_roles] stores exactly that arrangement, role i with
    players[i]. *)
Theorem any_distribution_possible (st : State) (sid code : string)
    (room : Room.t) (payload : JsVal) (roles target : list JsVal) :
  nullish payload = false ->
  field payload "roomId" = JStr code ->
  field payload "selectedRoles" = JArr roles ->
  rooms_get code (rooms st) = Some room ->
  Room.moderatorId room = Some sid ->
  length roles = length (Room.players room) ->
  target ≡ₚ roles ->
  exists draws st' out room',
    Forall valid_draw draws /\ length draws = length roles - 1 /\
    start_assign_roles sid payload draws st = Returned st' out /\
    rooms_get code (rooms st') = Some room' /\
    map Player.role (Room.players room') = target.
Proof.
  intros Hn Hid Hroles Hget Hmod Hlen Hp.
  destruct (fisher_yates_any roles target Hp) as (draws & Hd & Hdl & Hfy).
  assert (Hl : lookup_room (field payload "roomId") (rooms st)
               = Some (code, room))
    by (apply lookup_room_Some; by rewrite Hid).
  pose proof (start_assign_roles_moderator st sid code room payload roles
                target draws [] Hn Hl Hroles Hmod Hlen Hfy) as Hrun.
  simpl in Hrun.
  eexists draws, _, _, _. split; [done|]. split; [done|].
  split; [exact Hrun|]. split.
  - simpl. by rewrite rooms_get_set, decide_True.
  - simpl. apply roles_of_assigned.
    rewrite <- Hlen. by apply Permutation_length.
Qed.

Lemma any_distribution_possible_witness :
  exists draws st' out room',
    Forall valid_draw draws /\ length draws = 1 /\
    start_assign_roles sidM
      (roles_payload "AS29" [JStr "Wolf"; JStr "Villager"]) draws demo_state
      = Returned st' out /\
    rooms_get "AS29" (rooms st') = Some room' /\
    map Player.role (Room.players room') = [JStr "Villager"; JStr "Wolf"].
Proof.
  exact (any_distribution_possible demo_state sidM "AS29" demo_room
           (roles_payload "AS29" [JStr "Wolf"; JStr "Villager"])
           [JStr "Wolf"; JStr "Villager"] [JStr "Villager"; JStr "Wolf"]
           eq_refl eq_refl eq_refl eq_refl eq_refl eq_refl
           (perm_swap _ _ _)).
Defined.

(** ** The counts sent to a room *)

Ltac emitted_cases He :=
  repeat first
    [ apply elem_of_nil in He; destruct He
    | apply elem_of_app in He as [He|He]
    | apply elem_of_cons in He as [He|He] ].

Lemma to_moderator_msg (tr : Adapter) (room : Room.t) (m : Msg)
    (e : Emission) :
  e ∈ to_moderator tr room m -> em_msg e = m.
Proof.
  unfold to_moderator.
  destruct (Room.moderatorId room) as [mid|]; [|by intros ?%elem_of_nil].
  destruct (truthy_str mid); [|by intros ?%elem_of_nil].
  intros He. apply list_elem_of_singleton in He. by subst.
Qed.

Lemma leave_notices_count (tr : Adapter) (sid k : string) (room : Room.t)
    (e : Emission) (code : string) (n : nat) :
  e ∈ leave_notices tr sid k room ->
  em_to e = ToGroup code -> em_msg e = player_count_update n ->
  k = code /\ n = length (Room.players (without sid room)).
Proof.
  unfold leave_notices. intros He Hto Hmsg.
  apply elem_of_app in He as [He|He].
  - destruct (decide (Room.moderatorId room = Some sid)); emitted_cases He.
    subst. discriminate.
  - destruct (decide (sid ∈ map Player.id (Room.players room)));
      [|by apply elem_of_nil in He].
    apply elem_of_cons in He as [->|He].
    + simpl in *. by simplify_eq.
    + apply to_moderator_msg in He. congruence.
Qed.

Lemma player_count_current (st st' : State) (sid : string) (ev : Event)
    (e : Emission) (code : string) (n : nat) :
  NoDup (map fst (rooms st)) ->
  after (handle sid ev st) = Some st' ->
  e ∈ emitted (handle sid ev st) ->
  em_to e = ToGroup code ->
  em_msg e = player_count_update n ->
  n = match rooms_get code (rooms st') with
      | Some room => length (Room.players room)
      | None => 0
      end.
Proof.
  intros Hnd Hafter He Hto Hmsg.
  destruct ev as [|draws|payload|payload draws|payload|payload|]; simpl in *.
  - by apply elem_of_nil in He.
  - unfold create_room in *.
    destruct (generateRoomCode (rooms st) draws) as [[c rest]|]; [|done].
    destruct (getRoom c (rooms st)) as [room0 rs1]. simpl in *.
    emitted_cases He; subst; discriminate.
  - unfold join_room in *.
    destruct (nullish payload); [by apply elem_of_nil in He|].
    destruct (field payload "roomId") as [| | | |s| |];
      try by apply elem_of_nil in He.
    destruct (rooms_get (trim (toUpperCase s)) (rooms st)) as [room|] eqn:Hget.
    + cbv zeta in *. cbn [after emitted] in *.
      injection Hafter as <-.
      emitted_cases He; try (subst e; discriminate).
      * subst e. cbn [em_to em_msg io_to_emit] in *. simplify_eq.
        cbn [rooms]. rewrite rooms_get_set, decide_True by done. done.
      * apply to_moderator_msg in He. congruence.
    + simpl in He. emitted_cases He. subst. discriminate.
  - unfold start_assign_roles in *.
    destruct (nullish payload); [by apply elem_of_nil in He|].
    destruct (lookup_room _ _) as [[k room]|]; [|by apply elem_of_nil in He].
    destruct (decide _); [by apply elem_of_nil in He|].
    destruct (js_length _) as [len|]; [|by apply elem_of_nil in He].
    destruct (negb _).
    { simpl in He. emitted_cases He. subst. discriminate. }
    destruct (js_spread _) as [roles|]; [|by apply elem_of_nil in He].
    destruct (fisher_yates _ _ _) as [[shuffled rest]|]; [|done].
    cbv zeta in *. cbn [after emitted] in *.
    emitted_cases He; try (subst e; discriminate).
    change (map ?f) with (fmap (M:=list) f) in He.
    apply list_elem_of_fmap in He as (p & -> & _). discriminate.
  - unfold reset_room in *.
    destruct (nullish payload); [by apply elem_of_nil in He|].
    destruct (lookup_room _ _) as [[k room]|]; [|by apply elem_of_nil in He].
    destruct (decide _); [by apply elem_of_nil in He|].
    cbv zeta in *. cbn [after emitted] in *.
    emitted_cases He; subst e; discriminate.
  - unfold kick_player in *.
    destruct (nullish payload); [by apply elem_of_nil in He|].
    destruct (lookup_room _ _) as [[k room]|]; [|by apply elem_of_nil in He].
    destruct (decide _); [by apply elem_of_nil in He|].
    cbv zeta in *.
    match type of Hafter with
    | after (match ?t with _ => _ end) = _ => destruct t as [pid|]
    end; cbn [after emitted] in *; injection Hafter as <-;
      emitted_cases He; try (subst e; discriminate);
      subst e; cbn [em_to em_msg io_to_emit] in *; simplify_eq;
      cbn [rooms]; rewrite rooms_get_set, decide_True by done; done.
  - unfold disconnect in *.
    pose proof (cleanupUser_out (sockets_remove sid (io st)) sid (rooms st))
      as Hout.
    destruct (cleanupUser (sockets_remove sid (io st)) sid (rooms st))
      as [rs out] eqn:Hc.
    cbn [after emitted] in *. injection Hafter as <-. simpl in Hout. subst out.
    apply list_elem_of_In, in_flat_map in He as ([k room] & Hin & He).
    apply list_elem_of_In in Hin, He. simpl in He.
    destruct (leave_notices_count _ _ _ _ _ _ _ He Hto Hmsg) as [-> ->].
    pose proof (cleanupUser_get (sockets_remove sid (io st)) sid code
                  (rooms st) room Hnd (elem_of_rooms_get _ _ _ Hnd Hin)) as Hg.
    rewrite Hc in Hg. simpl in Hg. cbn [rooms]. rewrite Hg.
    destruct (deserted (without sid room)) eqn:Hdes; [|done].
    unfold deserted in Hdes. apply andb_true_iff in Hdes as [Hdes _].
    apply bool_decide_eq_true in Hdes. by rewrite Hdes.
Qed.

(** X20: the counts sent to a room are current: whenever handling an
    event in a reachable state emits [player_count_update] to the group of a
    room code, the number it carries is the number of players the room has
    once the event is handled, and 0 if the room was deleted by it. *)
Theorem player_count_update_is_current (st st' : State) (sid : string)
    (ev : Event) (e : Emission) (code : string) (n : nat) :
  reachable st ->
  after (handle sid ev st) = Some st' ->
  e ∈ emitted (handle sid ev st) ->
  em_to e = ToGroup code ->
  em_msg e = player_count_update n ->
  n = match rooms_get code (rooms st') with
      | Some room => length (Room.players room)
      | None => 0
      end.
Proof.
  intros Hst. apply player_count_current.
  by destruct (reachable_invariant st Hst) as [Hnd _].
Qed.

Lemma player_count_update_is_current_witness :
  reachable demo_state /\
  exists st' e,
    after (handle sidB EDisconnect demo_state) = Some st' /\
    e ∈ emitted (handle sidB EDisconnect demo_state) /\
    1 = match rooms_get "AS29" (rooms st') with
        | Some room => length (Room.players room)
        | None => 0
        end.
Proof.
  split; [exact demo_reachable|].
  destruct (after (handle sidB EDisconnect demo_state)) as [st'|] eqn:Hafter;
    [|discriminate].
  pose (e := io_to_emit (sockets_remove sidB (io demo_state)) "AS29"
               (player_count_update 1)).
  assert (He : e ∈ emitted (handle sidB EDisconnect demo_state))
    by (vm_compute; left).
  exists st', e. split; [reflexivity|]. split; [exact He|].
  exact (player_count_update_is_current demo_state st' sidB EDisconnect e
           "AS29" 1 demo_reachable Hafter He eq_refl eq_refl).
Defined.

(** ** Players and the group of their room *)

Lemma elem_of_members (tr : Adapter) (g x : string) :
  x ∈ members tr g <-> exists gs, (x, gs) ∈ tr /\ (x = g \/ g ∈ gs).
Proof.
  unfold members.
  change (map fst) with (fmap (M:=list) (@fst string (list string))).
  rewrite list_elem_of_fmap. split.
  - intros ([y gs] & -> & H). apply list_elem_of_filter in H as [H1 H2].
    simpl in *. eauto.
  - intros (gs & Hin & H). exists (x, gs). split; [done|].
    apply list_elem_of_filter. done.
Qed.

Lemma members_connection (tr : Adapter) (sid g x : string) :
  x ∈ members tr g -> x ∈ members (tr ++ [(sid, [])]) g.
Proof.
  rewrite !elem_of_members. intros (gs & Hin & H). exists gs.
  split; [|done]. apply elem_of_app. by left.
Qed.

Lemma members_join (tr : Adapter) (sid code g x : string) :
  x ∈ members tr g -> x ∈ members (socket_join sid code tr) g.
Proof.
  rewrite !elem_of_members. intros (gs & Hin & H). unfold socket_join.
  change (map ?f) with (fmap (M:=list) f).
  destruct (decide (x = sid)) as [->|Hne].
  - exists (add_group code gs). split.
    + apply list_elem_of_fmap. exists (sid, gs). simpl.
      by rewrite decide_True.
    + destruct H as [H|H]; [by left|right]. unfold add_group.
      destruct (decide (code ∈ gs)); [done|]. apply elem_of_app. by left.
  - exists gs. split; [|done]. apply list_elem_of_fmap. exists (x, gs).
    simpl. by rewrite decide_False.
Qed.

Lemma members_leave (tr : Adapter) (pid code g x : string) :
  x ∈ members tr g -> x <> pid \/ g <> code ->
  x ∈ members (socket_leave pid code tr) g.
Proof.
  rewrite !elem_of_members. intros (gs & Hin & H) Hor. unfold socket_leave.
  change (map ?f) with (fmap (M:=list) f).
  destruct (decide (x = pid)) as [->|Hne].
  - destruct Hor as [?|Hg]; [done|].
    exists (filter (fun g' => g' <> code) gs). split.
    + apply list_elem_of_fmap. exists (pid, gs). simpl.
      by rewrite decide_True.
    + destruct H as [H|H]; [by left|right]. by apply list_elem_of_filter.
  - exists gs. split; [|done]. apply list_elem_of_fmap. exists (x, gs).
    simpl. by rewrite decide_False.
Qed.

Lemma members_remove (tr : Adapter) (sid g x : string) :
  x ∈ members tr g -> x <> sid -> x ∈ members (sockets_remove sid tr) g.
Proof.
  rewrite !elem_of_members. intros (gs & Hin & H) Hne. exists gs.
  split; [|done]. by apply list_elem_of_filter.
Qed.

Lemma elem_of_ids_filter (P : Player.t -> Prop) `{!forall p, Decision (P p)}
    (x : string) (room : Room.t) :
  x ∈ map Player.id (filter P (Room.players room)) ->
  x ∈ ids room /\ exists p, Player.id p = x /\ P p.
Proof.
  unfold ids. change (map Player.id) with (fmap (M:=list) Player.id).
  intros Hx. apply list_elem_of_fmap in Hx as (p & -> & Hp).
  apply list_elem_of_filter in Hp as [HP Hp]. split; [|eauto].
  apply list_elem_of_fmap. eauto.
Qed.

Lemma elem_of_rooms_set_other (k code : string) (r v : Room.t)
    (rs : Registry) :
  NoDup (map fst rs) ->
  (k, r) ∈ rooms_set code v rs ->
  (k = code /\ r = v) \/ (k <> code /\ (k, r) ∈ rs).
Proof.
  intros Hnd Hin.
  apply elem_of_rooms_get in Hin; [|by apply rooms_set_NoDup].
  rewrite rooms_get_set in Hin.
  destruct (decide (code = k)) as [->|Hne].
  - left. by simplify_eq.
  - right. split; [done|]. by apply rooms_get_elem_of.
Qed.

Lemma handle_listening (st st' : State) (sid : string) (ev : Event) :
  NoDup (map fst (rooms st)) ->
  listening st ->
  live sid ev st ->
  after (handle sid ev st) = Some st' ->
  listening st'.
Proof.
  intros Hnd HL Hlive Hstep code r' x Hin Hx.
  assert (Hsame : st' = st -> x ∈ members (io st') code)
    by (intros ->; by apply (HL code r')).
  destruct ev as [|draws|payload|payload draws|payload|payload|];
    simpl in Hstep.
  - injection Hstep as <-. simpl in *. apply members_connection.
    by apply (HL code r').
  - unfold create_room in Hstep.
    destruct (generateRoomCode _ _) as [[c rest]|] eqn:Hgen; [|discriminate].
    pose proof (generateRoomCode_attempt _ _ _ _ Hgen) as [_ Hfree].
    unfold getRoom in Hstep. rewrite Hfree in Hstep. simpl in Hstep.
    injection Hstep as <-. simpl in *.
    rewrite rooms_set_set, rooms_set_fresh in Hin by done.
    apply elem_of_app in Hin as [Hin|Hin].
    + apply members_join. by apply (HL code r').
    + apply list_elem_of_singleton in Hin as [= -> ->].
      by apply elem_of_nil in Hx.
  - unfold join_room in Hstep.
    destruct (nullish payload); [injection Hstep as <-; by apply Hsame|].
    destruct (field payload "roomId") as [| | | |s| |];
      try (injection Hstep as <-; by apply Hsame).
    destruct (rooms_get (trim (toUpperCase s)) (rooms st)) as [room|] eqn:Hget;
      [|injection Hstep as <-; by apply Hsame].
    simpl in Hstep. injection Hstep as <-. simpl in Hin. simpl.
    apply elem_of_rooms_set in Hin as [Hin|[-> ->]].
    + apply members_join. by apply (HL code r').
    + assert (Hold : x ∈ ids room ->
                     x ∈ members (socket_join sid (trim (toUpperCase s)) (io st))
                                 (trim (toUpperCase s))).
      { intros H. apply members_join.
        apply (HL _ room); [by apply rooms_get_elem_of|done]. }
      unfold ids in Hx. simpl in Hx.
      destruct (list_find _ (Room.players room)) as [[i q]|]; [by apply Hold|].
      rewrite map_app in Hx. apply elem_of_app in Hx as [Hx|Hx];
        [by apply Hold|].
      simpl in Hx. apply list_elem_of_singleton in Hx as ->.
      apply members_after_join.
      destruct Hlive as [?|Hlive]; [discriminate|].
      unfold sockets_has in Hlive. by apply bool_decide_eq_true in Hlive.
  - unfold start_assign_roles in Hstep.
    destruct (nullish payload); [injection Hstep as <-; by apply Hsame|].
    destruct (lookup_room _ _) as [[c r]|] eqn:Hl;
      [|injection Hstep as <-; by apply Hsame].
    apply lookup_room_Some in Hl as [_ Hl].
    destruct (decide _) as [|Hmod]; [injection Hstep as <-; by apply Hsame|].
    destruct (js_length _); [|injection Hstep as <-; by apply Hsame].
    destruct (negb _); [injection Hstep as <-; by apply Hsame|].
    destruct (js_spread _); [|injection Hstep as <-; by apply Hsame].
    destruct (fisher_yates _ _ _) as [[shuffled rest]|]; [|discriminate].
    simpl in Hstep. injection Hstep as <-. simpl in Hin. simpl.
    apply elem_of_rooms_set in Hin as [Hin|[-> ->]];
      [by apply (HL code r')|].
    apply (HL _ r); [by apply rooms_get_elem_of|].
    unfold ids in *. simpl in Hx.
    by rewrite (proj1 (ids_of_assigned _ _)) in Hx.
  - unfold reset_room in Hstep.
    destruct (nullish payload); [injection Hstep as <-; by apply Hsame|].
    destruct (lookup_room _ _) as [[c r]|] eqn:Hl;
      [|injection Hstep as <-; by apply Hsame].
    apply lookup_room_Some in Hl as [_ Hl].
    destruct (decide _) as [|Hmod]; [injection Hstep as <-; by apply Hsame|].
    simpl in Hstep. injection Hstep as <-. simpl in Hin. simpl.
    apply elem_of_rooms_set in Hin as [Hin|[-> ->]];
      [by apply (HL code r')|].
    apply (HL _ r); [by apply rooms_get_elem_of|].
    unfold ids in *. simpl in Hx.
    rewrite map_map in Hx. simpl in Hx. exact Hx.
  - unfold kick_player in Hstep.
    destruct (nullish payload); [injection Hstep as <-; by apply Hsame|].
    destruct (lookup_room _ _) as [[c r]|] eqn:Hl;
      [|injection Hstep as <-; by apply Hsame].
    apply lookup_room_Some in Hl as [_ Hl].
    destruct (decide _) as [|Hmod]; [injection Hstep as <-; by apply Hsame|].
    assert (Hroom : forall tr, rooms st' =
                rooms_set c
                  (Room.set_players
                     (filter (fun p => Some (Player.id p)
                                       <> as_string (field payload "playerId"))
                             (Room.players r)) r) (rooms st) ->
              (forall pid, as_string (field payload "playerId") = Some pid ->
                           tr = socket_leave pid c (io st) \/ tr = io st) ->
              (as_string (field payload "playerId") = None -> tr = io st) ->
              x ∈ members tr code).
    { intros tr Heq Hsome Hnone. rewrite Heq in Hin.
      apply elem_of_rooms_set_other in Hin as [[-> ->]|[Hne Hin]];
        [| |done].
      - unfold ids in Hx. simpl in Hx.
        apply elem_of_ids_filter in Hx as (Hx & p & <- & Hp).
        pose proof (HL c r _ (rooms_get_elem_of _ _ _ Hl) Hx) as Hm.
        destruct (as_string (field payload "playerId")) as [pid|];
          [|by rewrite Hnone].
        destruct (Hsome pid eq_refl) as [-> | ->]; [|done].
        apply members_leave; [done|]. left. congruence.
      - pose proof (HL code r' x Hin Hx) as Hm.
        destruct (as_string (field payload "playerId")) as [pid|];
          [|by rewrite Hnone].
        destruct (Hsome pid eq_refl) as [-> | ->]; [|done].
        apply members_leave; [done|]. by right. }
    destruct (as_string (field payload "playerId")) as [pid|] eqn:Hpid;
      [destruct (sockets_has _ _)|];
      simpl in Hstep; injection Hstep as <-; simpl in *;
      apply Hroom; try done; intros; simplify_eq; eauto.
  - unfold disconnect in Hstep.
    pose proof (elem_of_cleanupUser (sockets_remove sid (io st)) sid code r'
                  (rooms st)) as Hres.
    destruct (cleanupUser _ sid (rooms st)) as [rs' out]. simpl in *.
    injection Hstep as <-. simpl in *.
    destruct (Hres Hin) as (r & Hr & ->).
    unfold ids, without in Hx. simpl in Hx.
    apply elem_of_ids_filter in Hx as (Hx & p & <- & Hp).
    apply members_remove; [|done]. by apply (HL code r).
Qed.

Lemma live_run_listening (evs : list (string * Event)) (st st' : State) :
  reachable st -> listening st ->
  Forall (fun e => admissible e.1 e.2) evs ->
  live_run st evs ->
  run st evs = Some st' -> listening st'.
Proof.
  revert st. induction evs as [|[sid ev] evs IH]; simpl;
    intros st Hst HL Hadm Hlive.
  - by intros [= <-].
  - apply Forall_cons in Hadm as [Ha Hadm]. simpl in Ha.
    destruct Hlive as [Hl Hlive].
    destruct (after (handle sid ev st)) as [st1|] eqn:Hstep; [|discriminate].
    apply IH; [by eapply reach_step| |done|done].
    eapply handle_listening; [|done|done|done].
    by destruct (reachable_invariant st Hst) as [Hnd _].
Qed.

(** X21: players hear their room.  After any run of events, each of them
    a [connection] or sent by a connection the transport holds at that
    moment, every connection listed among the
    players of a room is a member of the group named by the room's code, so
    that [io.to(code)] reaches it: [join_room] joins the group before it
    lists the player, and a player leaves the group only when kicked or
    dropped, which also unlists it. *)
Theorem players_hear_their_room (evs : list (string * Event))
    (st' : State) (code : string) (room : Room.t) (sid : string) :
  Forall (fun e => admissible e.1 e.2) evs ->
  live_run init evs ->
  run init evs = Some st' ->
  rooms_get code (rooms st') = Some room ->
  sid ∈ ids room ->
  sid ∈ members (io st') code.
Proof.
  intros Hadm Hlive Hrun Hget Hsid.
  apply (live_run_listening evs init st' reach_init) with (room := room);
    try done.
  - intros c r x Hin. by apply elem_of_nil in Hin.
  - by apply rooms_get_elem_of.
Qed.

Lemma players_hear_their_room_witness :
  sidB ∈ members (io demo_state) "AS29".
Proof.
  apply (players_hear_their_room demo_trace demo_state "AS29" demo_room sidB).
  - unfold demo_trace.
    repeat (apply List.Forall_cons; [solve_adm|]). apply List.Forall_nil.
  - simpl. unfold live.
    repeat (split; [first [by left | right; vm_compute; reflexivity]|]).
    exact I.
  - reflexivity.
  - reflexivity.
  - vm_compute. right. left.
Defined.
